(** * GitHubTelegramSyncBot: webhook ingestion, command gate and routing

    A shallow embedding of the core of the bot (signature verification,
    event formatting, webhook responses, the per-chat rate limiter, the
    allow-list and command routing) together with the properties the
    specification states about them.

    Conventions of the embedding:
    - a Python [str] is the list of its code points ([N]); [bytes] is the list
      of its octets ([N] below 256);
    - a value produced by [json.loads] (and [None]) is a [value];
    - code that can raise returns a [result]; a [try/except Exception] is a
      match on that result;
    - wall-clock time ([time.time()]) is a rational number of seconds. *)

From Stdlib Require Import List NArith ZArith QArith Bool String Ascii Lia Lqa.
From Stdlib Require DecimalPos DecimalNat.
From stdpp Require Import gmap.
Import ListNotations.

Set Default Proof Using "Type".
Set Warnings "-register-all".

(* ================================================================== *)
(** * Python runtime: exceptions, strings, values                      *)
(* ================================================================== *)

Module Py.

Inductive exn : Type :=
| TypeError
| AttributeError
| ValueError
| UnicodeEncodeError
| UnicodeDecodeError
| JSONDecodeError
| RecursionError.

Inductive result (A : Type) : Type :=
| Ok (a : A)
| Raise (e : exn).
Arguments Ok {A} a.
Arguments Raise {A} e.

Definition bind {A B} (m : result A) (k : A -> result B) : result B :=
  match m with
  | Ok a => k a
  | Raise e => Raise e
  end.

(** [try: m  except Exception: return None] for a body computing an
    optional result. *)
Definition catch_all {A} (m : result (option A)) : option A :=
  match m with
  | Ok r => r
  | Raise _ => None
  end.

Definition str := list N.
Definition bytes := list N.

(** A source literal made of ASCII characters. *)
Definition lit (s : string) : str :=
  List.map N_of_ascii (list_ascii_of_string s).

Fixpoint str_eqb (a b : str) : bool :=
  match a, b with
  | [], [] => true
  | x :: a', y :: b' => N.eqb x y && str_eqb a' b'
  | _, _ => false
  end.

(** [s.startswith(p)] *)
Fixpoint startswith (s p : str) {struct p} : bool :=
  match p with
  | [] => true
  | c :: p' =>
      match s with
      | [] => false
      | d :: s' => N.eqb d c && startswith s' p'
      end
  end.

(** [s.replace(old, new)] where [old] is a one-character string. *)
Fixpoint replace (s : str) (old : N) (new : str) : str :=
  match s with
  | [] => []
  | x :: r =>
      if N.eqb x old then new ++ replace r old new
      else x :: replace r old new
  end.

(** [s.split(sep)] where [sep] is a one-character string: the result is
    never empty. *)
Fixpoint split (s : str) (sep : N) : list str :=
  match s with
  | [] => [[]]
  | x :: r =>
      if N.eqb x sep then [] :: split r sep
      else match split r sep with
           | [] => [[x]]
           | w :: ws => (x :: w) :: ws
           end
  end.

(** Characters that [str.split()], [str.strip()] and [int()] treat as
    white space (CPython's [Py_UNICODE_ISSPACE]). *)
Definition isspace (c : N) : bool :=
  ((9 <=? c) && (c <=? 13) || (28 <=? c) && (c <=? 32)
   || (c =? 133) || (c =? 160) || (c =? 5760)
   || (8192 <=? c) && (c <=? 8202)
   || (c =? 8232) || (c =? 8233) || (c =? 8239) || (c =? 8287)
   || (c =? 12288))%N.

Fixpoint lstrip (s : str) : str :=
  match s with
  | [] => []
  | x :: r => if isspace x then lstrip r else s
  end.

Definition rstrip (s : str) : str := rev (lstrip (rev s)).

(** [s.strip()] *)
Definition strip (s : str) : str := rstrip (lstrip s).

(** [s.split()]: maximal runs of non-space characters. [cur] is the run
    being read, reversed. *)
Fixpoint split_ws_aux (s : str) (cur : str) : list str :=
  match s with
  | [] => match cur with [] => [] | _ => [rev cur] end
  | x :: r =>
      if isspace x then
        match cur with
        | [] => split_ws_aux r []
        | _ => rev cur :: split_ws_aux r []
        end
      else split_ws_aux r (x :: cur)
  end.

Definition split_ws (s : str) : list str := split_ws_aux s [].

Fixpoint uint_digits (d : Decimal.uint) : str :=
  match d with
  | Decimal.Nil => []
  | Decimal.D0 r => 48%N :: uint_digits r
  | Decimal.D1 r => 49%N :: uint_digits r
  | Decimal.D2 r => 50%N :: uint_digits r
  | Decimal.D3 r => 51%N :: uint_digits r
  | Decimal.D4 r => 52%N :: uint_digits r
  | Decimal.D5 r => 53%N :: uint_digits r
  | Decimal.D6 r => 54%N :: uint_digits r
  | Decimal.D7 r => 55%N :: uint_digits r
  | Decimal.D8 r => 56%N :: uint_digits r
  | Decimal.D9 r => 57%N :: uint_digits r
  end.

(** [str(n)] for an [int] *)
Definition str_of_nat (n : nat) : str := uint_digits (Nat.to_uint n).

Definition str_of_Z (z : Z) : str :=
  match z with
  | Z0 => [48%N]
  | Zpos p => uint_digits (Pos.to_uint p)
  | Zneg p => 45%N :: uint_digits (Pos.to_uint p)
  end.

(** Values as [json.loads] builds them, plus [None]. A [dict] is the list
    of its bindings; a key is looked up from the front. *)
Inductive value : Type :=
| VNone
| VBool (b : bool)
| VInt (z : Z)
| VFloat (q : Q)
| VStr (s : str)
| VList (l : list value)
| VDict (d : list (str * value)).

(** Truth value of an object in a condition. *)
Definition truthy (v : value) : bool :=
  match v with
  | VNone => false
  | VBool b => b
  | VInt z => negb (Z.eqb z 0)
  | VFloat q => negb (Qeq_bool q 0)
  | VStr s => match s with [] => false | _ => true end
  | VList l => match l with [] => false | _ => true end
  | VDict d => match d with [] => false | _ => true end
  end.

Fixpoint dict_get (d : list (str * value)) (k : str) : option value :=
  match d with
  | [] => None
  | (k', v) :: r => if str_eqb k' k then Some v else dict_get r k
  end.

(** [v.get(key, default)]: only a [dict] has the method. *)
Definition get (v : value) (key : str) (default : value) : result value :=
  match v with
  | VDict d =>
      Ok (match dict_get d key with Some x => x | None => default end)
  | _ => Raise AttributeError
  end.

(** [len(v)] *)
Definition len (v : value) : result nat :=
  match v with
  | VStr s => Ok (length s)
  | VList l => Ok (length l)
  | VDict d => Ok (length d)
  | _ => Raise TypeError
  end.

(** [v[:n]]: only sequences can be sliced. *)
Definition slice_to (v : value) (n : nat) : result value :=
  match v with
  | VStr s => Ok (VStr (firstn n s))
  | VList l => Ok (VList (firstn n l))
  | _ => Raise TypeError
  end.

(** The items a [for] loop visits. *)
Definition iter (v : value) : result (list value) :=
  match v with
  | VStr s => Ok (List.map (fun c => VStr [c]) s)
  | VList l => Ok l
  | VDict d => Ok (List.map (fun kv => VStr (fst kv)) d)
  | _ => Raise TypeError
  end.

(** [s[:k]] on a [str]: a negative [k] counts from the end. *)
Definition str_upto (s : str) (k : Z) : str :=
  if (k <? 0)%Z then firstn (Z.to_nat (Z.of_nat (length s) + k)) s
  else firstn (Z.to_nat k) s.

(** [sep in s] for a one-character [sep]. *)
Definition contains_char (s : str) (sep : N) : bool := existsb (N.eqb sep) s.

(** [s.split(sep, 1)] where [sep] is a one-character string: one part when
    [sep] does not occur, else the text before the first [sep] and the
    text after it. *)
Fixpoint split_once (s : str) (sep : N) : list str :=
  match s with
  | [] => [[]]
  | x :: r =>
      if N.eqb x sep then [[]; r]
      else match split_once r sep with
           | [] => [[x]]
           | w :: ws => (x :: w) :: ws
           end
  end.

(** [str(v)] as an f-string renders a [None], [bool], [int] or [str]. *)
Definition str_of_scalar (v : value) : option str :=
  match v with
  | VNone => Some (lit "None")
  | VBool true => Some (lit "True")
  | VBool false => Some (lit "False")
  | VInt z => Some (str_of_Z z)
  | VStr s => Some s
  | _ => None
  end.

(** Builtins whose behaviour depends on the interpreter and its Unicode
    tables, kept as an interface:
    - [int_of_str s] is [int(s)] on a [str]; [None] stands for [ValueError],
      the only exception it raises;
    - [format_value v] is [str(v)] for a [float], [list] or [dict];
    - [json_loads s] is [json.loads(s)]; it raises [JSONDecodeError] on text
      that is not JSON. *)
Class Runtime : Type := {
  int_of_str : str -> option Z;
  format_value : value -> str;
  json_loads : str -> result value
}.

(** [f"{v}"] *)
Definition py_str `{Runtime} (v : value) : str :=
  match str_of_scalar v with
  | Some s => s
  | None => format_value v
  end.

End Py.

Notation "'let!' x ':=' m 'in' k" := (Py.bind m (fun x => k))
  (at level 10, x name, k at level 200).

(* ================================================================== *)
(** * Library code the handler calls: UTF-8, SHA-256, HMAC             *)
(* ================================================================== *)

Module Codec.
Import Py.
Local Open Scope N_scope.

(** One code point as UTF-8; a surrogate cannot be encoded. *)
Definition encode_char (c : N) : option bytes :=
  if c <? 0x80 then Some [c]
  else if c <? 0x800 then
    Some [0xC0 + N.shiftr c 6; 0x80 + N.land c 0x3F]
  else if c <? 0x10000 then
    if (0xD800 <=? c) && (c <=? 0xDFFF) then None
    else Some [0xE0 + N.shiftr c 12; 0x80 + N.land (N.shiftr c 6) 0x3F;
               0x80 + N.land c 0x3F]
  else if c <? 0x110000 then
    Some [0xF0 + N.shiftr c 18; 0x80 + N.land (N.shiftr c 12) 0x3F;
          0x80 + N.land (N.shiftr c 6) 0x3F; 0x80 + N.land c 0x3F]
  else None.

(** [s.encode('utf-8')] *)
Fixpoint utf8_encode (s : str) : result bytes :=
  match s with
  | [] => Ok []
  | c :: r =>
      match encode_char c with
      | None => Raise UnicodeEncodeError
      | Some bs => let! rest := utf8_encode r in Ok (bs ++ rest)
      end
  end.

Definition is_cont (b : N) : bool := (0x80 <=? b) && (b <=? 0xBF).
Definition cont (b : N) : N := N.land b 0x3F.

(** [b.decode('utf-8')], strict: overlong forms, surrogates, values above
    U+10FFFF and truncated sequences are errors. *)
Fixpoint utf8_decode (b : bytes) : result str :=
  match b with
  | [] => Ok []
  | b0 :: r0 =>
      if b0 <? 0x80 then
        let! s := utf8_decode r0 in Ok (b0 :: s)
      else if (0xC2 <=? b0) && (b0 <=? 0xDF) then
        match r0 with
        | b1 :: r1 =>
            if is_cont b1 then
              let! s := utf8_decode r1 in
              Ok (N.shiftl (N.land b0 0x1F) 6 + cont b1 :: s)
            else Raise UnicodeDecodeError
        | _ => Raise UnicodeDecodeError
        end
      else if (0xE0 <=? b0) && (b0 <=? 0xEF) then
        match r0 with
        | b1 :: b2 :: r2 =>
            if is_cont b1 && is_cont b2
               && negb ((b0 =? 0xE0) && (b1 <? 0xA0))
               && negb ((b0 =? 0xED) && (0xA0 <=? b1)) then
              let! s := utf8_decode r2 in
              Ok (N.shiftl (N.land b0 0x0F) 12 + N.shiftl (cont b1) 6
                  + cont b2 :: s)
            else Raise UnicodeDecodeError
        | _ => Raise UnicodeDecodeError
        end
      else if (0xF0 <=? b0) && (b0 <=? 0xF4) then
        match r0 with
        | b1 :: b2 :: b3 :: r3 =>
            if is_cont b1 && is_cont b2 && is_cont b3
               && negb ((b0 =? 0xF0) && (b1 <? 0x90))
               && negb ((b0 =? 0xF4) && (0x90 <=? b1)) then
              let! s := utf8_decode r3 in
              Ok (N.shiftl (N.land b0 0x07) 18 + N.shiftl (cont b1) 12
                  + N.shiftl (cont b2) 6 + cont b3 :: s)
            else Raise UnicodeDecodeError
        | _ => Raise UnicodeDecodeError
        end
      else Raise UnicodeDecodeError
  end.

End Codec.

Module Hashlib.
Import Py.
Local Open Scope N_scope.

Definition mask32 : N := 0xFFFFFFFF.
Definition add32 (x y : N) : N := N.land (x + y) mask32.
Definition rotr (n x : N) : N :=
  N.lor (N.shiftr x n) (N.land (N.shiftl x (32 - n)) mask32).
Definition not32 (x : N) : N := N.lxor x mask32.

Definition Ch (x y z : N) := N.lxor (N.land x y) (N.land (not32 x) z).
Definition Maj (x y z : N) :=
  N.lxor (N.lxor (N.land x y) (N.land x z)) (N.land y z).
Definition bsig0 (x : N) := N.lxor (N.lxor (rotr 2 x) (rotr 13 x)) (rotr 22 x).
Definition bsig1 (x : N) := N.lxor (N.lxor (rotr 6 x) (rotr 11 x)) (rotr 25 x).
Definition ssig0 (x : N) := N.lxor (N.lxor (rotr 7 x) (rotr 18 x)) (N.shiftr x 3).
Definition ssig1 (x : N) := N.lxor (N.lxor (rotr 17 x) (rotr 19 x)) (N.shiftr x 10).

(** Value of a hexadecimal digit. *)
Definition hex_value (c : N) : N :=
  if c <? 58 then c - 48 else c - 87.

(** The 32-bit words written in a hexadecimal text, eight digits each;
    [acc] and [count] are the word being read and its digits so far. *)
Fixpoint words_of_hex (s : str) (acc : N) (count : nat) : list N :=
  match s with
  | [] => []
  | c :: r =>
      let acc := 16 * acc + hex_value c in
      match count with
      | 7%nat => acc :: words_of_hex r 0 0
      | _ => words_of_hex r acc (S count)
      end
  end.

(** Round constants of SHA-256 (FIPS 180-4, section 4.2.2). *)
Definition K256 : list N :=
  Eval vm_compute in
    words_of_hex
      (lit "428a2f9871374491b5c0fbcfe9b5dba53956c25b59f111f1923f82a4ab1c5ed5"
       ++ lit "d807aa9812835b01243185be550c7dc372be5d7480deb1fe9bdc06a7c19bf174"
       ++ lit "e49b69c1efbe47860fc19dc6240ca1cc2de92c6f4a7484aa5cb0a9dc76f988da"
       ++ lit "983e5152a831c66db00327c8bf597fc7c6e00bf3d5a7914706ca635114292967"
       ++ lit "27b70a852e1b21384d2c6dfc53380d13650a7354766a0abb81c2c92e92722c85"
       ++ lit "a2bfe8a1a81a664bc24b8b70c76c51a3d192e819d6990624f40e3585106aa070"
       ++ lit "19a4c1161e376c082748774c34b0bcb5391c0cb34ed8aa4a5b9cca4f682e6ff3"
       ++ lit "748f82ee78a5636f84c878148cc7020890befffaa4506cebbef9a3f7c67178f2")
      0 0.

(** Initial hash value (FIPS 180-4, section 5.3.3). *)
Definition IV256 : list N :=
  Eval vm_compute in
    words_of_hex
      (lit "6a09e667bb67ae853c6ef372a54ff53a510e527f9b05688c1f83d9ab5be0cd19")
      0 0.

(** Big-endian octets of a number, [n] of them. *)
Fixpoint be_bytes (n : nat) (x : N) : bytes :=
  match n with
  | O => []
  | S m => N.land (N.shiftr x (8 * N.of_nat m)) 0xFF :: be_bytes m x
  end.

Fixpoint be_words (b : bytes) : list N :=
  match b with
  | b0 :: b1 :: b2 :: b3 :: r =>
      (N.shiftl b0 24 + N.shiftl b1 16 + N.shiftl b2 8 + b3) :: be_words r
  | _ => []
  end.

(** The message followed by the bit 1, zeros up to 56 modulo 64 octets,
    and the bit length on 8 octets. *)
Definition pad (msg : bytes) : bytes :=
  let len := N.of_nat (length msg) in
  let zeros := N.to_nat ((119 - len mod 64) mod 64) in
  msg ++ [0x80] ++ repeat 0 zeros ++ be_bytes 8 (8 * len).

(** Message schedule; [rw] holds the words computed so far, latest first. *)
Fixpoint schedule (n : nat) (rw : list N) : list N :=
  match n with
  | O => rev rw
  | S m =>
      let w := add32 (add32 (ssig1 (nth 1 rw 0)) (nth 6 rw 0))
                     (add32 (ssig0 (nth 14 rw 0)) (nth 15 rw 0)) in
      schedule m (w :: rw)
  end.

Definition round (st : list N) (kw : N * N) : list N :=
  match st with
  | [a; b; c; d; e; f; g; h] =>
      let t1 := add32 (add32 (add32 h (bsig1 e)) (add32 (Ch e f g) (fst kw)))
                      (snd kw) in
      let t2 := add32 (bsig0 a) (Maj a b c) in
      [add32 t1 t2; a; b; c; add32 d t1; e; f; g]
  | _ => st
  end.

Definition compress (h : list N) (block : bytes) : list N :=
  let w := schedule 48 (rev (be_words block)) in
  let st := fold_left round (combine K256 w) h in
  List.map (fun p => add32 (fst p) (snd p)) (combine h st).

Fixpoint blocks (n : nat) (b : bytes) : list bytes :=
  match n with
  | O => []
  | S m => firstn 64 b :: blocks m (skipn 64 b)
  end.

(** [hashlib.sha256(msg).digest()] *)
Definition sha256 (msg : bytes) : bytes :=
  let p := pad msg in
  let h := fold_left compress (blocks (length p / 64) p) IV256 in
  flat_map (be_bytes 4) h.

Definition hex_digit (n : N) : N := if n <? 10 then 48 + n else 87 + n.

(** [bytes.hex()] *)
Definition hex (b : bytes) : str :=
  flat_map (fun x => [hex_digit (N.shiftr x 4); hex_digit (N.land x 0xF)]) b.

End Hashlib.

Module Hmac.
Import Py Hashlib.
Local Open Scope N_scope.

Definition block_size : nat := 64.

Definition prepare_key (key : bytes) : bytes :=
  let k := if Nat.ltb block_size (length key) then sha256 key else key in
  k ++ repeat 0 (block_size - length k).

(** [hmac.new(key, msg, hashlib.sha256).digest()] *)
Definition hmac_sha256 (key msg : bytes) : bytes :=
  let k := prepare_key key in
  let ipad := List.map (N.lxor 0x36) k in
  let opad := List.map (N.lxor 0x5C) k in
  sha256 (opad ++ sha256 (ipad ++ msg)).

(** [hmac.new(key, msg, hashlib.sha256).hexdigest()] *)
Definition hexdigest (key msg : bytes) : str := hex (hmac_sha256 key msg).

Definition is_ascii (s : str) : bool := forallb (fun c => c <? 128) s.

(** [hmac.compare_digest(a, b)] on two [str]: both must be ASCII. *)
Definition compare_digest (a b : str) : result bool :=
  if is_ascii a && is_ascii b then Ok (str_eqb a b) else Raise TypeError.

End Hmac.

(** Regular expressions as [re] reads the patterns of [utils.py]:
    character classes given by ranges, sequence, choice and repetition. *)
Module Re.
Import Py.









End Re.

(* ================================================================== *)
(** * utils.py                                                         *)
(* ================================================================== *)

Module Utils.
Import Py.

Definition special_chars : str := lit "_*[]()~`>#+-=|{}.!".

Definition backslash : N := 92%N.

(** [escape_markdown(text)]: a falsy argument gives the empty string,
    anything else must have [replace]. *)
Definition escape_markdown (text : value) : result str :=
  if negb (truthy text) then Ok []
  else match text with
       | VStr s =>
           Ok (fold_left (fun t char => replace t char [backslash; char])
                         special_chars s)
       | _ => Raise AttributeError
       end.

(** Membership in [special_chars]. *)
Definition is_special (c : N) : bool := existsb (N.eqb c) special_chars.

(** [truncate_text(text, max_length, suffix)] *)
Definition truncate_text (text : str) (max_length : Z) (suffix : str) : str :=
  if negb (truthy (VStr text)) || (Z.of_nat (length text) <=? max_length)%Z
  then text
  else str_upto text (max_length - Z.of_nat (length suffix)) ++ suffix.









(** [format_duration(seconds)] for an [int] *)
Definition format_duration (seconds : Z) : str :=
  if (seconds <? 60)%Z then str_of_Z seconds ++ lit "s"
  else if (seconds <? 3600)%Z then
    let minutes := (seconds / 60)%Z in
    let remaining_seconds := (seconds mod 60)%Z in
    if (0 <? remaining_seconds)%Z then
      str_of_Z minutes ++ lit "m " ++ str_of_Z remaining_seconds ++ lit "s"
    else str_of_Z minutes ++ lit "m"
  else
    let hours := (seconds / 3600)%Z in
    let remaining_minutes := ((seconds mod 3600) / 60)%Z in
    if (0 <? remaining_minutes)%Z then
      str_of_Z hours ++ lit "h " ++ str_of_Z remaining_minutes ++ lit "m"
    else str_of_Z hours ++ lit "h".

(** [extract_command_args(message_text)] *)
Definition extract_command_args (message_text : str) : list str :=
  if negb (truthy (VStr message_text)) then []
  else
    let parts := split_ws (strip message_text) in
    if Nat.ltb 1 (length parts) then skipn 1 parts else [].

End Utils.


(* ================================================================== *)
(** * config.py                                                        *)
(* ================================================================== *)

Module Config.
Import Py.

Record t : Type := {
  allowed_chat_ids : list Z;
  github_webhook_secret : str;
  rate_limit_requests : Z;
  rate_limit_window : Z;
  notify_on_push : bool;
  notify_on_issues : bool;
  notify_on_pull_requests : bool;
  notify_on_releases : bool
}.

Section ParseChatIds.
Context `{Runtime}.

(** The list comprehension of [_parse_chat_ids]: entries are visited in
    order, blank ones are skipped, and the first [int] that raises aborts
    the whole comprehension ([None]). *)
Fixpoint chat_ids_of_entries (entries : list str) : option (list Z) :=
  match entries with
  | [] => Some []
  | chat_id :: rest =>
      if truthy (VStr (strip chat_id)) then
        match int_of_str (strip chat_id) with
        | None => None
        | Some z =>
            match chat_ids_of_entries rest with
            | None => None
            | Some zs => Some (z :: zs)
            end
        end
      else chat_ids_of_entries rest
  end.

Definition _parse_chat_ids (chat_ids_str : str) : list Z :=
  if negb (truthy (VStr chat_ids_str)) then []
  else match chat_ids_of_entries (split chat_ids_str 44%N) with
       | Some ids => ids
       | None => []
       end.

End ParseChatIds.

(** [chat_id in self.allowed_chat_ids] *)
Definition contains (l : list Z) (chat_id : Z) : bool :=
  existsb (Z.eqb chat_id) l.

Definition is_chat_allowed (self : t) (chat_id : Z) : bool :=
  match allowed_chat_ids self with
  | [] => true
  | _ => contains (allowed_chat_ids self) chat_id
  end.

End Config.

(* ================================================================== *)
(** * webhook_handler.py                                               *)
(* ================================================================== *)

Module WebhookHandler.
Import Py Utils.

Definition nl : str := [10%N].
Definition rocket : str := [128640%N].
Definition herb : str := [127807%N].
Definition bust : str := [128100%N].
Definition memo : str := [128221%N].
Definition diamond : str := [128312%N].
Definition bullet : str := [8226%N].
Definition link : str := [128279%N].
Definition new_button : str := [127381%N].
Definition check_mark : str := [9989%N].
Definition arrows : str := [128260%N].
Definition pencil : str := [9999%N; 65039%N].
Definition clipboard : str := [128203%N].
Definition bug : str := [128027%N].
Definition party : str := [127881%N].
Definition shuffle : str := [128256%N].
Definition label : str := [127991%N; 65039%N].
Definition ping_pong : str := [127955%N].

(** The request as [process_webhook] reads it: [request.get_data()] and the
    two headers ([None] when a header is not sent). *)
Record request : Type := {
  get_data : bytes;
  x_hub_signature_256 : option str;
  x_github_event : option str
}.

(** [jsonify(body), status] *)
Record response : Type := {
  body : list (str * str);
  status : N
}.

Definition verify_signature (config : Config.t) (payload_body : bytes)
    (signature_header : option str) : result bool :=
  if negb (truthy (VStr (Config.github_webhook_secret config))) then Ok true
  else
    match signature_header with
    | None => Ok false
    | Some header =>
        if negb (truthy (VStr header)) then Ok false
        else if negb (startswith header (lit "sha256=")) then Ok false
        else
          let! key := Codec.utf8_encode (Config.github_webhook_secret config) in
          let expected_signature := Hmac.hexdigest key payload_body in
          let signature := skipn 7 header in
          Hmac.compare_digest expected_signature signature
    end.

Section Formatting.
Context `{Runtime}.

(** [ref.split('/')[-1] if ref.startswith('refs/heads/') else ref] *)
Definition branch_of (ref : value) : result str :=
  match ref with
  | VStr r =>
      Ok (if startswith r (lit "refs/heads/") then List.last (split r 47%N) []
          else r)
  | _ => Raise AttributeError
  end.

(** The body of the loop over [commits[:3]], threading [message]. *)
Fixpoint append_commits (commits : list value) (message : str) : result str :=
  match commits with
  | [] => Ok message
  | commit :: rest =>
      let! commit_message := get commit (lit "message") (VStr (lit "No message")) in
      let! author_obj := get commit (lit "author") (VDict []) in
      let! author := get author_obj (lit "name") (VStr (lit "Unknown")) in
      let! id := get commit (lit "id") (VStr []) in
      let! sha := slice_to id 7 in
      let! url := get commit (lit "url") (VStr []) in
      let! e_message := escape_markdown commit_message in
      let message :=
        message ++ diamond ++ lit " **" ++ e_message ++ lit "**" ++ nl in
      let! e_author := escape_markdown author in
      let message :=
        message ++ bust ++ lit " " ++ e_author ++ lit " " ++ bullet
        ++ lit " [`" ++ py_str sha ++ lit "`](" ++ py_str url ++ lit ")"
        ++ nl ++ nl in
      append_commits rest message
  end.

Definition format_push_event (payload : value) : option str :=
  catch_all (
    let! repository := get payload (lit "repository") (VDict []) in
    let! repo_name := get repository (lit "full_name") (VStr (lit "Unknown")) in
    let! ref := get payload (lit "ref") (VStr []) in
    let! branch := branch_of ref in
    let! commits := get payload (lit "commits") (VList []) in
    let! pusher_obj := get payload (lit "pusher") (VDict []) in
    let! pusher := get pusher_obj (lit "name") (VStr (lit "Unknown")) in
    if negb (truthy commits) then Ok None
    else
      let! e_repo := escape_markdown repo_name in
      let message := rocket ++ lit " **Push to " ++ e_repo ++ lit "**" ++ nl ++ nl in
      let! e_branch := escape_markdown (VStr branch) in
      let message :=
        message ++ herb ++ lit " **Branch:** " ++ e_branch ++ nl in
      let! e_pusher := escape_markdown pusher in
      let message :=
        message ++ bust ++ lit " **Pusher:** " ++ e_pusher ++ nl in
      let! n := len commits in
      let message :=
        message ++ memo ++ lit " **Commits:** " ++ str_of_nat n ++ nl ++ nl in
      let! first3 := slice_to commits 3 in
      let! shown := iter first3 in
      let! message := append_commits shown message in
      let message :=
        if Nat.ltb 3 n then
          message ++ lit "... and " ++ str_of_nat (n - 3) ++ lit " more commits"
          ++ nl ++ nl
        else message in
      let! repo_url := get repository (lit "html_url") (VStr []) in
      let message :=
        if truthy repo_url then
          message ++ link ++ lit " [View Repository](" ++ py_str repo_url ++ lit ")"
        else message in
      Ok (Some message)).

(** [{...}.get(action, default)]: the key must be hashable. *)
Definition emoji_for (table : list (str * str)) (default : str)
    (action : value) : result str :=
  match action with
  | VStr a =>
      Ok (match List.find (fun kv => str_eqb (fst kv) a) table with
          | Some kv => snd kv
          | None => default
          end)
  | VList _ | VDict _ => Raise TypeError
  | _ => Ok default
  end.

Definition format_issues_event (payload : value) : option str :=
  catch_all (
    let! action := get payload (lit "action") (VStr (lit "unknown")) in
    let! issue := get payload (lit "issue") (VDict []) in
    let! repository := get payload (lit "repository") (VDict []) in
    let! repo_name := get repository (lit "full_name") (VStr (lit "Unknown")) in
    let! issue_title := get issue (lit "title") (VStr (lit "No title")) in
    let! issue_number := get issue (lit "number") (VInt 0) in
    let! issue_url := get issue (lit "html_url") (VStr []) in
    let! user_obj := get issue (lit "user") (VDict []) in
    let! user := get user_obj (lit "login") (VStr (lit "Unknown")) in
    let! action_emoji :=
      emoji_for [(lit "opened", new_button); (lit "closed", check_mark);
                 (lit "reopened", arrows); (lit "edited", pencil)]
                clipboard action in
    let! e_repo := escape_markdown repo_name in
    let message :=
      action_emoji ++ lit " **Issue " ++ py_str action ++ lit " in " ++ e_repo
      ++ lit "**" ++ nl ++ nl in
    let! e_title := escape_markdown issue_title in
    let message :=
      message ++ bug ++ lit " **#" ++ py_str issue_number ++ lit ": "
      ++ e_title ++ lit "**" ++ nl in
    let! e_user := escape_markdown user in
    let message := message ++ bust ++ lit " **By:** " ++ e_user ++ nl in
    let message :=
      if truthy issue_url then
        message ++ link ++ lit " [View Issue](" ++ py_str issue_url ++ lit ")"
      else message in
    Ok (Some message)).

Definition format_pull_request_event (payload : value) : option str :=
  catch_all (
    let! action := get payload (lit "action") (VStr (lit "unknown")) in
    let! pull_request := get payload (lit "pull_request") (VDict []) in
    let! repository := get payload (lit "repository") (VDict []) in
    let! repo_name := get repository (lit "full_name") (VStr (lit "Unknown")) in
    let! pr_title := get pull_request (lit "title") (VStr (lit "No title")) in
    let! pr_number := get pull_request (lit "number") (VInt 0) in
    let! pr_url := get pull_request (lit "html_url") (VStr []) in
    let! user_obj := get pull_request (lit "user") (VDict []) in
    let! user := get user_obj (lit "login") (VStr (lit "Unknown")) in
    let! action_emoji :=
      emoji_for [(lit "opened", new_button); (lit "closed", check_mark);
                 (lit "merged", party); (lit "reopened", arrows);
                 (lit "edited", pencil)]
                clipboard action in
    let! e_repo := escape_markdown repo_name in
    let message :=
      action_emoji ++ lit " **Pull Request " ++ py_str action ++ lit " in "
      ++ e_repo ++ lit "**" ++ nl ++ nl in
    let! e_title := escape_markdown pr_title in
    let message :=
      message ++ shuffle ++ lit " **#" ++ py_str pr_number ++ lit ": "
      ++ e_title ++ lit "**" ++ nl in
    let! e_user := escape_markdown user in
    let message := message ++ bust ++ lit " **By:** " ++ e_user ++ nl in
    let message :=
      if truthy pr_url then
        message ++ link ++ lit " [View Pull Request](" ++ py_str pr_url ++ lit ")"
      else message in
    Ok (Some message)).

(** [action != 'published'] *)
Definition is_published (action : value) : bool :=
  match action with
  | VStr a => str_eqb a (lit "published")
  | _ => false
  end.

Definition format_release_event (payload : value) : option str :=
  catch_all (
    let! action := get payload (lit "action") (VStr (lit "unknown")) in
    let! release := get payload (lit "release") (VDict []) in
    let! repository := get payload (lit "repository") (VDict []) in
    if negb (is_published action) then Ok None
    else
      let! repo_name := get repository (lit "full_name") (VStr (lit "Unknown")) in
      let! release_name := get release (lit "name") (VStr (lit "No name")) in
      let! tag_name := get release (lit "tag_name") (VStr (lit "Unknown")) in
      let! release_url := get release (lit "html_url") (VStr []) in
      let! author_obj := get release (lit "author") (VDict []) in
      let! author := get author_obj (lit "login") (VStr (lit "Unknown")) in
      let! e_repo := escape_markdown repo_name in
      let message :=
        party ++ lit " **New Release in " ++ e_repo ++ lit "**" ++ nl ++ nl in
      let! e_name := escape_markdown release_name in
      let! e_tag := escape_markdown tag_name in
      let message :=
        message ++ label ++ lit " **" ++ e_name ++ lit "** (" ++ e_tag
        ++ lit ")" ++ nl in
      let! e_author := escape_markdown author in
      let message := message ++ bust ++ lit " **By:** " ++ e_author ++ nl in
      let message :=
        if truthy release_url then
          message ++ link ++ lit " [View Release](" ++ py_str release_url ++ lit ")"
        else message in
      Ok (Some message)).

(** No [try] of its own: a fault is caught by [handle_github_event]. *)
Definition format_ping_event (payload : value) : result str :=
  let! repository := get payload (lit "repository") (VDict []) in
  let! repo_name := get repository (lit "full_name") (VStr (lit "Unknown")) in
  let! e_repo := escape_markdown repo_name in
  Ok (ping_pong ++ lit " **Webhook configured for " ++ e_repo ++ lit "**"
      ++ nl ++ nl ++ lit "Webhook is working correctly!").

(** [event_type == name] for a header that may be absent. *)
Definition is_event (event_type : option str) (name : string) : bool :=
  match event_type with
  | Some e => str_eqb e (lit name)
  | None => false
  end.

(** The [if/elif] chain of [handle_github_event] that computes [message]
    (the specification's [classify_and_format]). *)
Definition classify_and_format (config : Config.t)
    (event_type : option str) (payload : value) : result (option str) :=
  if is_event event_type "push" && Config.notify_on_push config then
    Ok (format_push_event payload)
  else if is_event event_type "issues" && Config.notify_on_issues config then
    Ok (format_issues_event payload)
  else if is_event event_type "pull_request"
          && Config.notify_on_pull_requests config then
    Ok (format_pull_request_event payload)
  else if is_event event_type "release" && Config.notify_on_releases config then
    Ok (format_release_event payload)
  else if is_event event_type "ping" then
    let! m := format_ping_event payload in Ok (Some m)
  else Ok None.

(** [handle_github_event] returns nothing and raises nothing; its effect is
    the notification handed to [send_notification_async], if any. *)
Definition handle_github_event (config : Config.t)
    (event_type : option str) (payload : value) : option str :=
  match classify_and_format config event_type payload with
  | Ok (Some message) =>
      if truthy (VStr message)
         && match Config.allowed_chat_ids config with [] => false | _ => true end
      then Some message
      else None
  | _ => None
  end.

Definition respond (key text : string) (code : N) : response :=
  {| body := [(lit key, lit text)]; status := code |}.

(** [process_webhook]: the response, and the notification dispatched while
    handling the request. *)
Definition process_webhook (config : Config.t) (req : request)
    : response * option str :=
  let attempt : result (response * option str) :=
    let payload_body := get_data req in
    let signature_header := x_hub_signature_256 req in
    let event_type := x_github_event req in
    let! valid := verify_signature config payload_body signature_header in
    if negb valid then Ok (respond "error" "Invalid signature" 403, None)
    else
      let parsed := let! text := Codec.utf8_decode payload_body in
                    json_loads text in
      match parsed with
      | Raise JSONDecodeError => Ok (respond "error" "Invalid JSON" 400, None)
      | Raise e => Raise e
      | Ok payload =>
          let sent := handle_github_event config event_type payload in
          Ok (respond "status" "success" 200, sent)
      end
  in
  match attempt with
  | Ok r => r
  | Raise _ => (respond "error" "Internal server error" 500, None)
  end.

End Formatting.

End WebhookHandler.

(* ================================================================== *)
(** * telegram_bot.py                                                  *)
(* ================================================================== *)

Module TelegramBot.
Import Py.

(** [self.rate_limits]: a [defaultdict(list)] from chat id to the request
    times kept for that chat. *)
Abbreviation rate_limits := (gmap Z (list Q)).

(** [self.rate_limits[chat_id]] read through the [defaultdict]. *)
Definition requests_of (limits : rate_limits) (chat_id : Z) : list Q :=
  default [] (limits !! chat_id).

(** [a > b] on clock readings. *)
Definition later (a b : Q) : bool := negb (Qle_bool a b).

(** [is_rate_limited(chat_id)], with [now] the reading of [time.time()]:
    the answer and the updated [rate_limits]. *)
Definition is_rate_limited (config : Config.t) (now : Q) (chat_id : Z)
    (limits : rate_limits) : bool * rate_limits :=
  let window_start := (now - inject_Z (Config.rate_limit_window config))%Q in
  let kept :=
    List.filter (fun req_time => later req_time window_start)
                (requests_of limits chat_id) in
  let limits := <[chat_id := kept]> limits in
  if (Z.of_nat (length kept) >=? Config.rate_limit_requests config)%Z then
    (true, limits)
  else
    (false, <[chat_id := kept ++ [now]]> limits).

Record Message : Type := { text : option str }.

Record Update : Type := {
  effective_chat : option Z;
  message : option Message
}.

Inductive command : Type :=
| Start | Help | Profile | Repos | Repo | Commits | Issues | Search | Status.

(** What handling one update does, in order: replies sent to the chat, and
    the body of a command handler run once its permission check passed. *)
Inductive action : Type :=
| Reply (text : str)
| Run (c : command).

Definition cross : str := [10060%N].
Definition alarm : str := [9200%N].

Definition not_authorized : str :=
  cross ++ lit " You are not authorized to use this bot.".
Definition rate_limit_exceeded : str :=
  alarm ++ lit " Rate limit exceeded. Please wait before making more requests.".
Definition unknown_command : str :=
  cross ++ lit " Unknown command. Use /help to see available commands.".

(** [check_permissions(update)]: the verdict, the replies sent and the
    updated [rate_limits]. *)
Definition check_permissions (config : Config.t) (now : Q) (u : Update)
    (limits : rate_limits) : bool * list action * rate_limits :=
  match effective_chat u, message u with
  | Some chat_id, Some _ =>
      if negb (Config.is_chat_allowed config chat_id) then
        (false, [Reply not_authorized], limits)
      else
        let '(limited, limits) := is_rate_limited config now chat_id limits in
        if limited then (false, [Reply rate_limit_exceeded], limits)
        else (true, [], limits)
  | _, _ => (false, [], limits)
  end.

(** Every command handler opens with [if not await
    self.check_permissions(update): return]. *)
Definition command_handler (c : command) (config : Config.t) (now : Q)
    (u : Update) (limits : rate_limits) : list action * rate_limits :=
  let '(ok, out, limits) := check_permissions config now u limits in
  if ok then (out ++ [Run c], limits) else (out, limits).

Definition handle_message (config : Config.t) (now : Q) (u : Update)
    (limits : rate_limits) : list action * rate_limits :=
  match message u with
  | None => ([], limits)
  | Some m =>
      match text m with
      | None => ([], limits)
      | Some message_text =>
          if negb (truthy (VStr message_text)) then ([], limits)
          else if startswith message_text (lit "/start") then
            command_handler Start config now u limits
          else if startswith message_text (lit "/help") then
            command_handler Help config now u limits
          else if startswith message_text (lit "/profile") then
            command_handler Profile config now u limits
          else if startswith message_text (lit "/repos") then
            command_handler Repos config now u limits
          else if startswith message_text (lit "/repo") then
            command_handler Repo config now u limits
          else if startswith message_text (lit "/commits") then
            command_handler Commits config now u limits
          else if startswith message_text (lit "/issues") then
            command_handler Issues config now u limits
          else if startswith message_text (lit "/search") then
            command_handler Search config now u limits
          else if startswith message_text (lit "/status") then
            command_handler Status config now u limits
          else
            let '(ok, out, limits) := check_permissions config now u limits in
            if ok then (out ++ [Reply unknown_command], limits)
            else (out, limits)
      end
  end.

(** The calls that reach [is_rate_limited], as (clock reading, chat id)
    pairs, applied in order. *)
Fixpoint run_checks (config : Config.t) (calls : list (Q * Z))
    (limits : rate_limits) : list bool * rate_limits :=
  match calls with
  | [] => ([], limits)
  | (now, chat_id) :: rest =>
      let '(limited, limits) := is_rate_limited config now chat_id limits in
      let '(answers, limits) := run_checks config rest limits in
      (limited :: answers, limits)
  end.

(** States of [rate_limits] the bot can be in: empty at construction and
    changed by [is_rate_limited] only. *)
Inductive reachable (config : Config.t) : rate_limits -> Prop :=
| reachable_init : reachable config ∅
| reachable_step now chat_id limits :
    reachable config limits ->
    reachable config (snd (is_rate_limited config now chat_id limits)).

(** How [repo_command], [commits_command] and [issues_command] read their
    argument: a usage reply without a second word, a format reply when it
    has no slash, else the owner and the repository handed to the GitHub
    client. Unpacking anything but two parts would raise. *)
Inductive repo_argument : Type :=
| Usage
| InvalidFormat
| Target (owner repo : str)
| Fault.

Definition repo_argument_of (message_text : str) : repo_argument :=
  let parts := split_ws message_text in
  if Nat.ltb (length parts) 2 then Usage
  else
    let repo_path := nth 1 parts [] in
    if negb (contains_char repo_path 47%N) then InvalidFormat
    else match split_once repo_path 47%N with
         | [owner; repo] => Target owner repo
         | _ => Fault
         end.

(** The loop of [run_polling] over one batch of updates: each update comes
    with its [update_id] and with the clock reading at which it is
    handled; [last_update_id] ends as the id of the last update seen. *)
Fixpoint handle_updates (config : Config.t) (updates : list (Z * Q * Update))
    (last_update_id : Z) (limits : rate_limits)
    : list action * Z * rate_limits :=
  match updates with
  | [] => ([], last_update_id, limits)
  | (update_id, now, u) :: rest =>
      let '(out, limits) :=
        match message u with
        | Some _ => handle_message config now u limits
        | None => ([], limits)
        end in
      let '(outs, last_update_id, limits) :=
        handle_updates config rest update_id limits in
      (out ++ outs, last_update_id, limits)
  end.

End TelegramBot.

(* ================================================================== *)
(** * Auxiliary definitions used to state the properties               *)
(* ================================================================== *)

Import Py.

(** ** Markdown escaping *)

(** What the specification says of one character. *)
Definition escape_char (c : N) : str :=
  if Utils.is_special c then [Utils.backslash; c] else [c].

Definition escaped (s : str) : str := flat_map escape_char s.

(** Escaping with respect to an arbitrary set [S] of characters. *)
Definition escape_in (S : list N) (c : N) : str :=
  if existsb (N.eqb c) S then [Utils.backslash; c] else [c].

(** The characters still to be processed are new and are not the
    backslash. *)
Fixpoint fresh (done rest : list N) : bool :=
  match rest with
  | [] => true
  | c :: r =>
      negb (N.eqb c Utils.backslash) && negb (existsb (N.eqb c) done)
      && fresh (done ++ [c]) r
  end.

(** ** Rate limiter *)

(** The requests of [l] that a check at [now] keeps. *)
Definition recent (config : Config.t) (now : Q) (l : list Q) : list Q :=
  List.filter
    (fun req_time =>
       TelegramBot.later req_time
         (now - inject_Z (Config.rate_limit_window config))%Q) l.

(** Calls of one run for chat [c] that were admitted. *)
Fixpoint admitted (c : Z) (calls : list (Q * Z)) (answers : list bool) : nat :=
  match calls, answers with
  | (_, c') :: calls', limited :: answers' =>
      (if Z.eqb c' c && negb limited then 1 else 0) + admitted c calls' answers'
  | _, _ => 0
  end.

(** ** Webhook requests *)

(** [json.loads(payload_body.decode('utf-8'))] *)
Definition parse_body `{Runtime} (payload_body : bytes) : result value :=
  let! text := Codec.utf8_decode payload_body in json_loads text.

(** ** Push events *)

(** A push payload with every field present and of the expected type. *)
Record commit : Type := {
  commit_message : str;
  commit_author : str;
  commit_id : str;
  commit_url : str
}.

Record push : Type := {
  push_ref : str;
  push_repo_name : str;
  push_repo_url : str;
  push_pusher : str;
  push_commits : list commit
}.

Definition commit_value (c : commit) : value :=
  VDict [(lit "id", VStr (commit_id c));
         (lit "message", VStr (commit_message c));
         (lit "url", VStr (commit_url c));
         (lit "author", VDict [(lit "name", VStr (commit_author c))])].

Definition push_payload (p : push) : value :=
  VDict [(lit "ref", VStr (push_ref p));
         (lit "repository",
           VDict [(lit "full_name", VStr (push_repo_name p));
                  (lit "html_url", VStr (push_repo_url p))]);
         (lit "pusher", VDict [(lit "name", VStr (push_pusher p))]);
         (lit "commits", VList (List.map commit_value (push_commits p)))].

(** The message as the specification describes it. *)
Definition branch_name (ref : str) : str :=
  if startswith ref (lit "refs/heads/") then List.last (split ref 47%N) []
  else ref.

Definition commit_lines (c : commit) : str :=
  WebhookHandler.diamond ++ lit " **" ++ escaped (commit_message c)
  ++ lit "**" ++ WebhookHandler.nl
  ++ WebhookHandler.bust ++ lit " " ++ escaped (commit_author c) ++ lit " "
  ++ WebhookHandler.bullet
  ++ lit " [`" ++ firstn 7 (commit_id c) ++ lit "`](" ++ commit_url c
  ++ lit ")" ++ WebhookHandler.nl ++ WebhookHandler.nl.

Definition more_commits (total : nat) : str :=
  if Nat.ltb 3 total then
    lit "... and " ++ str_of_nat (total - 3) ++ lit " more commits"
    ++ WebhookHandler.nl ++ WebhookHandler.nl
  else [].

Definition repository_link (url : str) : str :=
  match url with
  | [] => []
  | _ => WebhookHandler.link ++ lit " [View Repository](" ++ url ++ lit ")"
  end.

Definition push_message (p : push) : str :=
  WebhookHandler.rocket ++ lit " **Push to " ++ escaped (push_repo_name p)
  ++ lit "**" ++ WebhookHandler.nl ++ WebhookHandler.nl
  ++ WebhookHandler.herb ++ lit " **Branch:** "
  ++ escaped (branch_name (push_ref p)) ++ WebhookHandler.nl
  ++ WebhookHandler.bust ++ lit " **Pusher:** " ++ escaped (push_pusher p)
  ++ WebhookHandler.nl
  ++ WebhookHandler.memo ++ lit " **Commits:** "
  ++ str_of_nat (length (push_commits p))
  ++ WebhookHandler.nl ++ WebhookHandler.nl
  ++ concat (List.map commit_lines (firstn 3 (push_commits p)))
  ++ more_commits (length (push_commits p))
  ++ repository_link (push_repo_url p).

(** ** Command routing *)

(** The command prefixes in the order [handle_message] tries them. *)
Definition command_prefixes : list (str * TelegramBot.command) :=
  [(lit "/start", TelegramBot.Start); (lit "/help", TelegramBot.Help);
   (lit "/profile", TelegramBot.Profile); (lit "/repos", TelegramBot.Repos);
   (lit "/repo", TelegramBot.Repo); (lit "/commits", TelegramBot.Commits);
   (lit "/issues", TelegramBot.Issues); (lit "/search", TelegramBot.Search);
   (lit "/status", TelegramBot.Status)].

(** The first command whose prefix starts [s]. *)
Definition match_prefix (s : str) : option TelegramBot.command :=
  option_map snd (List.find (fun pc => startswith s (fst pc)) command_prefixes).

(** [text.split()[0]], when there is one. *)
Definition first_token (text : str) : option str := hd_error (split_ws text).

(** Routing as the specification words it: prefix match on the first
    white-space-delimited token. *)
Definition route_by_first_token (text : str) : option TelegramBot.command :=
  match first_token text with
  | Some token => match_prefix token
  | None => None
  end.

(** What a message leads to once the permission check has passed. *)
Definition routed (text : str) : TelegramBot.action :=
  match match_prefix text with
  | Some c => TelegramBot.Run c
  | None => TelegramBot.Reply TelegramBot.unknown_command
  end.

(** An action behind the permission check. *)
Definition gated (a : TelegramBot.action) (config : Config.t) (now : Q)
    (u : TelegramBot.Update) (limits : TelegramBot.rate_limits)
    : list TelegramBot.action * TelegramBot.rate_limits :=
  let '(ok, out, limits) := TelegramBot.check_permissions config now u limits in
  if ok then (out ++ [a], limits) else (out, limits).

Definition leading_space (text : str) : bool :=
  match text with
  | [] => false
  | c :: _ => isspace c
  end.

(** The longest prefix without white space. *)
Fixpoint take_word (s : str) : str :=
  match s with
  | [] => []
  | x :: r => if isspace x then [] else x :: take_word r
  end.

Definition no_space (p : str) : bool := forallb (fun c => negb (isspace c)) p.

(* ================================================================== *)
(** * Concrete inputs                                                  *)
(* ================================================================== *)

Module Sample.

Definition digit_of (c : N) : option Z :=
  if ((48 <=? c) && (c <=? 57))%N then Some (Z.of_N (c - 48)) else None.

(** Digits with single underscores between them, most significant first;
    [acc] is the number read so far and [after_digit] tells whether the
    previous character was a digit. *)
Fixpoint digits_value (s : str) (acc : Z) (after_digit : bool) : option Z :=
  match s with
  | [] => if after_digit then Some acc else None
  | c :: r =>
      if (c =? 95)%N then
        if after_digit then digits_value r acc false else None
      else match digit_of c with
           | Some d => digits_value r (10 * acc + d)%Z true
           | None => None
           end
  end.

(** [int(s)] on ASCII text: an optional sign, then decimal digits. *)
Definition ascii_int (s : str) : option Z :=
  match strip s with
  | 45%N :: r => option_map Z.opp (digits_value r 0 false)
  | 43%N :: r => digits_value r 0 false
  | r => digits_value r 0 false
  end.

(** A stand-in for the interpreter: ASCII integers, a placeholder for the
    text of compound values, and a reader that knows the empty object
    only. *)
#[export] Instance runtime : Runtime := {|
  int_of_str := ascii_int;
  format_value := fun _ => lit "<value>";
  json_loads := fun s =>
    if str_eqb s (lit "{}") then Ok (VDict []) else Raise JSONDecodeError
|}.

(** The configuration read from an empty environment. *)
Definition default_config : Config.t := {|
  Config.allowed_chat_ids := [];
  Config.github_webhook_secret := [];
  Config.rate_limit_requests := 10;
  Config.rate_limit_window := 60;
  Config.notify_on_push := true;
  Config.notify_on_issues := true;
  Config.notify_on_pull_requests := true;
  Config.notify_on_releases := true
|}.

Definition with_secret (secret : str) : Config.t := {|
  Config.allowed_chat_ids := [];
  Config.github_webhook_secret := secret;
  Config.rate_limit_requests := 10;
  Config.rate_limit_window := 60;
  Config.notify_on_push := true;
  Config.notify_on_issues := true;
  Config.notify_on_pull_requests := true;
  Config.notify_on_releases := true
|}.

Definition with_chat_ids (ids : list Z) : Config.t := {|
  Config.allowed_chat_ids := ids;
  Config.github_webhook_secret := [];
  Config.rate_limit_requests := 10;
  Config.rate_limit_window := 60;
  Config.notify_on_push := true;
  Config.notify_on_issues := true;
  Config.notify_on_pull_requests := true;
  Config.notify_on_releases := true
|}.

(** Two requests per minute. *)
Definition two_per_minute : Config.t := {|
  Config.allowed_chat_ids := [];
  Config.github_webhook_secret := [];
  Config.rate_limit_requests := 2;
  Config.rate_limit_window := 60;
  Config.notify_on_push := true;
  Config.notify_on_issues := true;
  Config.notify_on_pull_requests := true;
  Config.notify_on_releases := true
|}.

Definition commit_number (n : string) : commit := {|
  commit_message := lit "fix #" ++ lit n;
  commit_author := lit "ann_b";
  commit_id := lit "0123456789abcdef" ++ lit n;
  commit_url := lit "https://example.org/c/" ++ lit n
|}.

(** A push of five commits to [main]. *)
Definition five_commits : push := {|
  push_ref := lit "refs/heads/main";
  push_repo_name := lit "octo/hello-world";
  push_repo_url := lit "https://example.org/octo";
  push_pusher := lit "ann_b";
  push_commits := List.map commit_number ["1"; "2"; "3"; "4"; "5"]%string
|}.

Definition text_update (chat_id : Z) (s : str) : TelegramBot.Update := {|
  TelegramBot.effective_chat := Some chat_id;
  TelegramBot.message := Some {| TelegramBot.text := Some s |}
|}.

End Sample.

(* ================================================================== *)
(** * Further auxiliary definitions                                    *)
(* ================================================================== *)

(** ** Objects *)

(** No key is bound twice, as in every [dict]. *)
Fixpoint unique_keys (d : list (str * value)) : bool :=
  match d with
  | [] => true
  | (k, _) :: r =>
      negb (existsb (fun kv => str_eqb (fst kv) k) r) && unique_keys r
  end.

(** The object [v] binds the key [k] to [x], among any other keys. *)
Definition has (v : value) (k : string) (x : value) : Prop :=
  exists d, v = VDict d /\ unique_keys d = true /\ In (lit k, x) d.

(** The object [v] has no key [k]. *)
Definition lacks (v : value) (k : string) : Prop :=
  exists d, v = VDict d /\ forall x, ~ In (lit k, x) d.

(** The object [v] carries the fields of the commit [c]. *)
Definition is_commit (v : value) (c : commit) : Prop :=
  has v "message" (VStr (commit_message c))
  /\ (exists author,
        has v "author" author /\ has author "name" (VStr (commit_author c)))
  /\ has v "id" (VStr (commit_id c))
  /\ has v "url" (VStr (commit_url c)).

(** The payload carries the fields of the push [p]: it may hold any
    further key, and so may its repository, its pusher, its commits and
    their authors. *)
Definition is_push (payload : value) (p : push) : Prop :=
  has payload "ref" (VStr (push_ref p))
  /\ (exists repository,
        has payload "repository" repository
        /\ has repository "full_name" (VStr (push_repo_name p))
        /\ has repository "html_url" (VStr (push_repo_url p)))
  /\ (exists pusher,
        has payload "pusher" pusher
        /\ has pusher "name" (VStr (push_pusher p)))
  /\ exists commits,
       has payload "commits" (VList commits)
       /\ Forall2 is_commit commits (push_commits p).

(** ** Escaping *)

(** Drops each backslash that stands before a special character. *)
Fixpoint unescape (s : str) : str :=
  match s with
  | [] => []
  | x :: r =>
      match r with
      | y :: r' =>
          if N.eqb x Utils.backslash && Utils.is_special y
          then y :: unescape r'
          else x :: unescape r
      | [] => [x]
      end
  end.

Definition count_special (s : str) : nat :=
  length (List.filter Utils.is_special s).

(** ** Issue, pull request, release and ping events *)

(** Payloads with every field present and of the expected type. *)
Record issue_event : Type := {
  issue_action : str;
  issue_repo_name : str;
  issue_number : Z;
  issue_title : str;
  issue_url : str;
  issue_user : str
}.

Definition issue_payload (key : string) (e : issue_event) : value :=
  VDict [(lit "action", VStr (issue_action e));
         (lit key,
           VDict [(lit "number", VInt (issue_number e));
                  (lit "title", VStr (issue_title e));
                  (lit "html_url", VStr (issue_url e));
                  (lit "user", VDict [(lit "login", VStr (issue_user e))])]);
         (lit "repository",
           VDict [(lit "full_name", VStr (issue_repo_name e))])].

(** The payload carries the fields of [e], the issue or pull request
    standing under [key]; every object may hold further keys. *)
Definition is_issue_event (key : string) (payload : value) (e : issue_event)
    : Prop :=
  has payload "action" (VStr (issue_action e))
  /\ (exists issue,
        has payload key issue
        /\ has issue "title" (VStr (issue_title e))
        /\ has issue "number" (VInt (issue_number e))
        /\ has issue "html_url" (VStr (issue_url e))
        /\ exists user,
             has issue "user" user /\ has user "login" (VStr (issue_user e)))
  /\ exists repository,
       has payload "repository" repository
       /\ has repository "full_name" (VStr (issue_repo_name e)).

Definition issue_icon (action : str) : str :=
  if str_eqb (lit "opened") action then WebhookHandler.new_button
  else if str_eqb (lit "closed") action then WebhookHandler.check_mark
  else if str_eqb (lit "reopened") action then WebhookHandler.arrows
  else if str_eqb (lit "edited") action then WebhookHandler.pencil
  else WebhookHandler.clipboard.

Definition pull_request_icon (action : str) : str :=
  if str_eqb (lit "merged") action then WebhookHandler.party
  else issue_icon action.

Definition view_link (caption : string) (url : str) : str :=
  match url with
  | [] => []
  | _ => WebhookHandler.link ++ lit " [View " ++ lit caption ++ lit "]("
         ++ url ++ lit ")"
  end.

Definition issue_message (e : issue_event) : str :=
  issue_icon (issue_action e) ++ lit " **Issue " ++ issue_action e
  ++ lit " in " ++ escaped (issue_repo_name e) ++ lit "**"
  ++ WebhookHandler.nl ++ WebhookHandler.nl
  ++ WebhookHandler.bug ++ lit " **#" ++ str_of_Z (issue_number e) ++ lit ": "
  ++ escaped (issue_title e) ++ lit "**" ++ WebhookHandler.nl
  ++ WebhookHandler.bust ++ lit " **By:** " ++ escaped (issue_user e)
  ++ WebhookHandler.nl
  ++ view_link "Issue" (issue_url e).

Definition pull_request_message (e : issue_event) : str :=
  pull_request_icon (issue_action e) ++ lit " **Pull Request "
  ++ issue_action e
  ++ lit " in " ++ escaped (issue_repo_name e) ++ lit "**"
  ++ WebhookHandler.nl ++ WebhookHandler.nl
  ++ WebhookHandler.shuffle ++ lit " **#" ++ str_of_Z (issue_number e)
  ++ lit ": "
  ++ escaped (issue_title e) ++ lit "**" ++ WebhookHandler.nl
  ++ WebhookHandler.bust ++ lit " **By:** " ++ escaped (issue_user e)
  ++ WebhookHandler.nl
  ++ view_link "Pull Request" (issue_url e).

Record release_event : Type := {
  release_repo_name : str;
  release_name : str;
  release_tag : str;
  release_url : str;
  release_author : str
}.

Definition release_payload (action : value) (e : release_event) : value :=
  VDict [(lit "action", action);
         (lit "release",
           VDict [(lit "name", VStr (release_name e));
                  (lit "tag_name", VStr (release_tag e));
                  (lit "html_url", VStr (release_url e));
                  (lit "author", VDict [(lit "login", VStr (release_author e))])]);
         (lit "repository",
           VDict [(lit "full_name", VStr (release_repo_name e))])].

(** The payload is a published release carrying the fields of [e]; every
    object may hold further keys. *)
Definition is_published_release (payload : value) (e : release_event) : Prop :=
  has payload "action" (VStr (lit "published"))
  /\ (exists release,
        has payload "release" release
        /\ has release "name" (VStr (release_name e))
        /\ has release "tag_name" (VStr (release_tag e))
        /\ has release "html_url" (VStr (release_url e))
        /\ exists author,
             has release "author" author
             /\ has author "login" (VStr (release_author e)))
  /\ exists repository,
       has payload "repository" repository
       /\ has repository "full_name" (VStr (release_repo_name e)).


Definition ping_message (repo_name : str) : str :=
  WebhookHandler.ping_pong ++ lit " **Webhook configured for "
  ++ escaped repo_name ++ lit "**" ++ WebhookHandler.nl ++ WebhookHandler.nl
  ++ lit "Webhook is working correctly!".

(** The event types [handle_github_event] knows. *)
Definition known_events : list str :=
  [lit "push"; lit "issues"; lit "pull_request"; lit "release"; lit "ping"].

Definition lower_hex (c : N) : bool :=
  ((48 <=? c) && (c <=? 57) || (97 <=? c) && (c <=? 102))%N.

(** ** Rate limiter, chat by chat *)

(** The calls of a run made for chat [c]. *)
Definition calls_of (c : Z) (calls : list (Q * Z)) : list (Q * Z) :=
  List.filter (fun call => Z.eqb (snd call) c) calls.

(** The answers a run gave to the calls of chat [c]. *)
Fixpoint answers_of (c : Z) (calls : list (Q * Z)) (answers : list bool)
    : list bool :=
  match calls, answers with
  | (_, c') :: calls', a :: answers' =>
      if Z.eqb c' c then a :: answers_of c calls' answers'
      else answers_of c calls' answers'
  | _, _ => []
  end.

(** ** Words *)

Definition all_space (s : str) : bool := forallb isspace s.

(** A word of [split]: not empty and free of white space. *)
Definition is_word (w : str) : Prop := w <> [] /\ no_space w = true.

(** ** Numbers in text *)

Definition is_digit (c : N) : bool := ((48 <=? c) && (c <=? 57))%N.

(** Reading decimal digits, most significant first; [acc] is the number
    read so far. *)
Fixpoint decimal_acc (s : str) (acc : N) : option N :=
  match s with
  | [] => Some acc
  | c :: r =>
      if is_digit c then decimal_acc r (10 * acc + (c - 48))%N else None
  end.

(** The number that a non-empty text of decimal digits denotes. *)
Definition decimal_value (s : str) : option N :=
  match s with
  | [] => None
  | _ => decimal_acc s 0
  end.

(** The same with an optional minus sign in front. *)
Definition integer_value (s : str) : option Z :=
  match s with
  | [] => None
  | c :: r =>
      if (c =? 45)%N
      then option_map (fun n => (- Z.of_N n)%Z) (decimal_value r)
      else option_map Z.of_N (decimal_value s)
  end.

(** The chat id an entry of [ALLOWED_CHAT_IDS] contributes, if any. *)
Definition entry_ids `{Runtime} (entry : str) : list Z :=
  match strip entry with
  | [] => []
  | s => match int_of_str s with
         | Some z => [z]
         | None => []
         end
  end.

(** ** The texts a regular expression reads *)






(** ** More concrete inputs *)

Module Sample2.

Definition all_off (ids : list Z) : Config.t := {|
  Config.allowed_chat_ids := ids;
  Config.github_webhook_secret := [];
  Config.rate_limit_requests := 10;
  Config.rate_limit_window := 60;
  Config.notify_on_push := false;
  Config.notify_on_issues := false;
  Config.notify_on_pull_requests := false;
  Config.notify_on_releases := false
|}.

Definition issue_42 : issue_event := {|
  issue_action := lit "opened";
  issue_repo_name := lit "octo/hello-world";
  issue_number := 42;
  issue_title := lit "Crash on start_up!";
  issue_url := lit "https://example.org/i/42";
  issue_user := lit "ann_b"
|}.

Definition release_1 : release_event := {|
  release_repo_name := lit "octo/hello-world";
  release_name := lit "First (stable)";
  release_tag := lit "v1.0";
  release_url := lit "https://example.org/r/1";
  release_author := lit "ann_b"
|}.

(** Deliveries as GitHub sends them, with fields the bot does not read. *)
Definition user_stub (login : string) : value :=
  VDict [(lit "login", VStr (lit login)); (lit "id", VInt 1);
         (lit "type", VStr (lit "User")); (lit "site_admin", VBool false)].

Definition commit_delivery (c : commit) : value :=
  VDict [(lit "id", VStr (commit_id c));
         (lit "tree_id", VStr (lit "f9d2a07e"));
         (lit "distinct", VBool true);
         (lit "message", VStr (commit_message c));
         (lit "timestamp", VStr (lit "2024-05-01T12:00:00Z"));
         (lit "url", VStr (commit_url c));
         (lit "author",
           VDict [(lit "name", VStr (commit_author c));
                  (lit "email", VStr (lit "ann@example.org"));
                  (lit "username", VStr (lit "annb"))]);
         (lit "added", VList []);
         (lit "modified", VList [VStr (lit "README.md")])].

Definition push_delivery (p : push) : value :=
  VDict [(lit "ref", VStr (push_ref p));
         (lit "before", VStr (lit "0000000"));
         (lit "after", VStr (lit "0123456"));
         (lit "repository",
           VDict [(lit "id", VInt 17);
                  (lit "name", VStr (lit "hello-world"));
                  (lit "full_name", VStr (push_repo_name p));
                  (lit "private", VBool false);
                  (lit "html_url", VStr (push_repo_url p));
                  (lit "fork", VBool false)]);
         (lit "pusher",
           VDict [(lit "name", VStr (push_pusher p));
                  (lit "email", VStr (lit "ann@example.org"))]);
         (lit "sender", user_stub "annb");
         (lit "created", VBool false);
         (lit "forced", VBool false);
         (lit "commits", VList (List.map commit_delivery (push_commits p)));
         (lit "head_commit", VNone)].

(** A push delivery without commits (a branch that was deleted). *)
Definition empty_push_delivery : value :=
  VDict [(lit "ref", VStr (lit "refs/heads/old"));
         (lit "before", VStr (lit "0123456"));
         (lit "after", VStr (lit "0000000"));
         (lit "repository", VDict [(lit "full_name", VStr (lit "octo/hello"))]);
         (lit "pusher", VDict [(lit "name", VStr (lit "ann_b"))]);
         (lit "deleted", VBool true);
         (lit "commits", VList [])].

Definition five_commits_text : str :=
  WebhookHandler.rocket ++ lit " **Push to octo/hello\-world**"
  ++ WebhookHandler.nl ++ WebhookHandler.nl
  ++ WebhookHandler.herb ++ lit " **Branch:** main" ++ WebhookHandler.nl
  ++ WebhookHandler.bust ++ lit " **Pusher:** ann\_b" ++ WebhookHandler.nl
  ++ WebhookHandler.memo ++ lit " **Commits:** 5"
  ++ WebhookHandler.nl ++ WebhookHandler.nl
  ++ WebhookHandler.diamond ++ lit " **fix \#1**" ++ WebhookHandler.nl
  ++ WebhookHandler.bust ++ lit " ann\_b " ++ WebhookHandler.bullet
  ++ lit " [`0123456`](https://example.org/c/1)"
  ++ WebhookHandler.nl ++ WebhookHandler.nl
  ++ WebhookHandler.diamond ++ lit " **fix \#2**" ++ WebhookHandler.nl
  ++ WebhookHandler.bust ++ lit " ann\_b " ++ WebhookHandler.bullet
  ++ lit " [`0123456`](https://example.org/c/2)"
  ++ WebhookHandler.nl ++ WebhookHandler.nl
  ++ WebhookHandler.diamond ++ lit " **fix \#3**" ++ WebhookHandler.nl
  ++ WebhookHandler.bust ++ lit " ann\_b " ++ WebhookHandler.bullet
  ++ lit " [`0123456`](https://example.org/c/3)"
  ++ WebhookHandler.nl ++ WebhookHandler.nl
  ++ lit "... and 2 more commits" ++ WebhookHandler.nl ++ WebhookHandler.nl
  ++ WebhookHandler.link
  ++ lit " [View Repository](https://example.org/octo)".

Definition issue_delivery (key : string) (e : issue_event) : value :=
  VDict [(lit "action", VStr (issue_action e));
         (lit "number", VInt (issue_number e));
         (lit key,
           VDict [(lit "url", VStr (lit "https://api.example.org/i"));
                  (lit "html_url", VStr (issue_url e));
                  (lit "id", VInt 99);
                  (lit "number", VInt (issue_number e));
                  (lit "title", VStr (issue_title e));
                  (lit "user",
                    VDict [(lit "login", VStr (issue_user e));
                           (lit "id", VInt 1)]);
                  (lit "state", VStr (lit "open"));
                  (lit "labels", VList [])]);
         (lit "repository",
           VDict [(lit "id", VInt 17);
                  (lit "full_name", VStr (issue_repo_name e));
                  (lit "private", VBool false)]);
         (lit "sender", user_stub "annb")].

Definition issue_42_text : str :=
  WebhookHandler.new_button ++ lit " **Issue opened in octo/hello\-world**"
  ++ WebhookHandler.nl ++ WebhookHandler.nl
  ++ WebhookHandler.bug ++ lit " **#42: Crash on start\_up\!**"
  ++ WebhookHandler.nl
  ++ WebhookHandler.bust ++ lit " **By:** ann\_b" ++ WebhookHandler.nl
  ++ WebhookHandler.link ++ lit " [View Issue](https://example.org/i/42)".

Definition pull_7 : issue_event := {|
  issue_action := lit "merged";
  issue_repo_name := lit "octo/hello-world";
  issue_number := 7;
  issue_title := lit "Add (more) tests";
  issue_url := lit "https://example.org/p/7";
  issue_user := lit "ann_b"
|}.

Definition pull_7_text : str :=
  WebhookHandler.party ++ lit " **Pull Request merged in octo/hello\-world**"
  ++ WebhookHandler.nl ++ WebhookHandler.nl
  ++ WebhookHandler.shuffle ++ lit " **#7: Add \(more\) tests**"
  ++ WebhookHandler.nl
  ++ WebhookHandler.bust ++ lit " **By:** ann\_b" ++ WebhookHandler.nl
  ++ WebhookHandler.link
  ++ lit " [View Pull Request](https://example.org/p/7)".

Definition release_delivery (action : string) (e : release_event) : value :=
  VDict [(lit "action", VStr (lit action));
         (lit "release",
           VDict [(lit "id", VInt 5);
                  (lit "html_url", VStr (release_url e));
                  (lit "tag_name", VStr (release_tag e));
                  (lit "name", VStr (release_name e));
                  (lit "draft", VBool false);
                  (lit "prerelease", VBool false);
                  (lit "author",
                    VDict [(lit "login", VStr (release_author e));
                           (lit "id", VInt 1)])]);
         (lit "repository",
           VDict [(lit "id", VInt 17);
                  (lit "full_name", VStr (release_repo_name e));
                  (lit "private", VBool false)]);
         (lit "sender", user_stub "annb");
         (lit "organization", VNone)].

Definition release_1_text : str :=
  WebhookHandler.party ++ lit " **New Release in octo/hello\-world**"
  ++ WebhookHandler.nl ++ WebhookHandler.nl
  ++ WebhookHandler.label ++ lit " **First \(stable\)** (v1\.0)"
  ++ WebhookHandler.nl
  ++ WebhookHandler.bust ++ lit " **By:** ann\_b" ++ WebhookHandler.nl
  ++ WebhookHandler.link ++ lit " [View Release](https://example.org/r/1)".

(** The delivery that follows the creation of a webhook, and one for a
    hook that belongs to no repository. *)
Definition ping_delivery : value :=
  VDict [(lit "zen", VStr (lit "Keep it logically awesome."));
         (lit "hook_id", VInt 30);
         (lit "hook", VDict [(lit "type", VStr (lit "Repository"))]);
         (lit "repository",
           VDict [(lit "id", VInt 17);
                  (lit "name", VStr (lit "hello-world"));
                  (lit "full_name", VStr (lit "octo/hello-world"));
                  (lit "private", VBool false);
                  (lit "fork", VBool false)]);
         (lit "sender", user_stub "annb")].

Definition organization_ping_delivery : value :=
  VDict [(lit "zen", VStr (lit "Keep it logically awesome."));
         (lit "hook_id", VInt 31);
         (lit "hook", VDict [(lit "type", VStr (lit "Organization"))]);
         (lit "organization", VDict [(lit "login", VStr (lit "octo"))]);
         (lit "sender", user_stub "annb")].

Definition nameless_ping_delivery : value :=
  VDict [(lit "zen", VStr (lit "Keep it logically awesome."));
         (lit "hook_id", VInt 32);
         (lit "hook", VDict [(lit "type", VStr (lit "Repository"))]);
         (lit "repository",
           VDict [(lit "id", VInt 17); (lit "private", VBool false)]);
         (lit "sender", user_stub "annb")].

Definition ping_text (repo_name : string) : str :=
  WebhookHandler.ping_pong ++ lit " **Webhook configured for "
  ++ lit repo_name ++ lit "**" ++ WebhookHandler.nl ++ WebhookHandler.nl
  ++ lit "Webhook is working correctly!".

End Sample2.

(* ================================================================== *)
(** * Properties: Markdown escaping                                    *)
(* ================================================================== *)

Section EscapeMarkdown.
Import Utils.

Lemma existsb_snoc (S : list N) (c x : N) :
  existsb (N.eqb x) (S ++ [c]) = existsb (N.eqb x) S || N.eqb x c.
Proof.
  rewrite existsb_app. simpl. now rewrite orb_false_r.
Qed.

(** One pass of [replace] extends the escaped set by one character. *)
Lemma replace_escape_in (S : list N) (c : N) (s : str) :
  c <> backslash ->
  existsb (N.eqb c) S = false ->
  replace (flat_map (escape_in S) s) c [backslash; c]
  = flat_map (escape_in (S ++ [c])) s.
Proof.
  intros Hb Hc. induction s as [|x s IH]; [reflexivity|].
  cbn [flat_map]. unfold escape_in at 1 3. rewrite existsb_snoc.
  destruct (existsb (N.eqb x) S) eqn:Hx; cbn [orb app replace].
  - destruct (N.eqb_spec backslash c) as [E|_]; [congruence|].
    destruct (N.eqb_spec x c) as [E|_].
    + subst x. congruence.
    + now rewrite IH.
  - destruct (N.eqb_spec x c) as [E|_]; [subst x|]; cbn [app];
      now rewrite IH.
Qed.

Lemma fold_replace_escape_in (rest done : list N) (s : str) :
  fresh done rest = true ->
  fold_left (fun t char => replace t char [backslash; char]) rest
            (flat_map (escape_in done) s)
  = flat_map (escape_in (done ++ rest)) s.
Proof.
  revert done. induction rest as [|c rest IH]; intros done Hf.
  - now rewrite app_nil_r.
  - cbn [fresh] in Hf.
    apply andb_prop in Hf as [Hf Hrest]. apply andb_prop in Hf as [Hb Hc].
    apply negb_true_iff in Hb, Hc. apply N.eqb_neq in Hb.
    cbn [fold_left]. rewrite replace_escape_in by assumption.
    rewrite IH by assumption. now rewrite <- app_assoc.
Qed.

Lemma flat_map_escape_nothing (s : str) : flat_map (escape_in []) s = s.
Proof.
  induction s as [|x s IH]; [reflexivity|].
  change (x :: flat_map (escape_in []) s = x :: s). now rewrite IH.
Qed.

Lemma escape_markdown_str (s : str) :
  escape_markdown (VStr s) = Ok (escaped s).
Proof.
  unfold escape_markdown. destruct s as [|x s]; [reflexivity|].
  cbn [truthy negb]. f_equal.
  rewrite <- (flat_map_escape_nothing (x :: s)) at 1.
  apply (fold_replace_escape_in special_chars []).
  vm_compute. reflexivity.
Qed.

(** C3. For every input string, [escape_markdown] returns the string in
    which each character of [_*[]()~`>#+-=|{}.!] is preceded by one
    backslash (the two-character text backslash, character) and every
    other character stands as it was, in the same order. The eighteen
    characters are written by their code points, in the order of the
    specification: 95 is the underscore, 42 the star, 91 and 93 the square
    brackets, 40 and 41 the parentheses, 126 the tilde, 96 the backquote,
    62 the greater-than sign, 35 the hash, 43 plus, 45 minus, 61 the equals
    sign, 124 the bar, 123 and 125 the braces, 46 the dot and 33 the
    exclamation mark; 92 is the backslash. *)
Theorem escape_markdown_prefixes_specials (s : str) :
  escape_markdown (VStr s)
  = Ok (flat_map
          (fun c =>
             if existsb (N.eqb c)
                  [95; 42; 91; 93; 40; 41; 126; 96; 62; 35; 43; 45; 61; 124;
                   123; 125; 46; 33]%N
             then [92%N; c]
             else [c]) s).
Proof. exact (escape_markdown_str s). Qed.

End EscapeMarkdown.

(* ================================================================== *)
(** * Properties: allow-list                                           *)
(* ================================================================== *)

Section AllowList.
Import Config TelegramBot.

Lemma contains_In (l : list Z) (chat_id : Z) :
  contains l chat_id = true <-> In chat_id l.
Proof.
  unfold contains. rewrite existsb_exists. split.
  - intros (x & Hin & Heq). apply Z.eqb_eq in Heq. now subst.
  - intros Hin. exists chat_id. split; [assumption|apply Z.eqb_refl].
Qed.

Lemma is_chat_allowed_iff (config : Config.t) (chat_id : Z) :
  is_chat_allowed config chat_id = true
  <-> allowed_chat_ids config = [] \/ In chat_id (allowed_chat_ids config).
Proof.
  unfold is_chat_allowed.
  destruct (allowed_chat_ids config) as [|a l] eqn:E.
  - split; auto.
  - rewrite contains_In. split; [auto|].
    intros [Hnil|Hin]; [discriminate|assumption].
Qed.

(** C7. [is_chat_allowed] admits every chat when the allow-list is empty,
    and otherwise admits exactly the members of the allow-list. It reads
    the configuration and the chat id and yields a boolean, so there is no
    state it could change; accordingly a refused update leaves the only
    mutable state of the bot, [rate_limits], as it was. *)
Theorem is_chat_allowed_gate (config : Config.t) (chat_id : Z) :
  (is_chat_allowed config chat_id = true
   <-> allowed_chat_ids config = [] \/ In chat_id (allowed_chat_ids config))
  /\ (forall now u m limits,
         effective_chat u = Some chat_id ->
         message u = Some m ->
         is_chat_allowed config chat_id = false ->
         check_permissions config now u limits
         = (false, [Reply not_authorized], limits)).
Proof.
  split; [apply is_chat_allowed_iff|].
  intros now u m limits Hc Hm Hno. unfold check_permissions.
  now rewrite Hc, Hm, Hno.
Qed.

Lemma is_chat_allowed_gate_witness :
  (is_chat_allowed (Sample.with_chat_ids [7; 9]%Z) 9 = true)
  /\ check_permissions (Sample.with_chat_ids [7; 9]%Z) 0
       (Sample.text_update 8 (lit "/help")) ∅
     = (false, [Reply not_authorized], ∅).
Proof.
  split.
  - apply (proj1 (is_chat_allowed_gate (Sample.with_chat_ids [7; 9]%Z) 9)).
    right. right. left. reflexivity.
  - apply (proj2 (is_chat_allowed_gate (Sample.with_chat_ids [7; 9]%Z) 8)
             0%Q (Sample.text_update 8 (lit "/help"))
             {| text := Some (lit "/help") |} ∅);
      reflexivity.
Defined.

Context `{Runtime}.

Lemma chat_ids_of_entries_fails (entries : list str) (e : str) :
  In e entries ->
  strip e <> [] ->
  int_of_str (strip e) = None ->
  chat_ids_of_entries entries = None.
Proof.
  intros Hin Hne Hint. induction entries as [|x entries IH]; [contradiction|].
  cbn [chat_ids_of_entries].
  destruct Hin as [->|Hin].
  - destruct (strip e) as [|c r] eqn:Es; [congruence|].
    cbn [truthy]. now rewrite Hint.
  - rewrite (IH Hin).
    destruct (truthy (VStr (strip x))); [|reflexivity].
    now destruct (int_of_str (strip x)).
Qed.

(** Blank entries are not handed to [int]: they cannot fail. *)
Lemma chat_ids_of_entries_blank (entries : list str) (e : str) :
  strip e = [] ->
  chat_ids_of_entries (e :: entries) = chat_ids_of_entries entries.
Proof. intros E. cbn [chat_ids_of_entries]. now rewrite E. Qed.

(** C10. If one comma-separated entry of [ALLOWED_CHAT_IDS] is handed to
    [int] (it is not blank) and [int] rejects it, the parsed allow-list is
    empty, and a configuration carrying it admits every chat id. *)
Theorem malformed_entry_allows_all (chat_ids_str e : str) (config : Config.t)
    (chat_id : Z) :
  In e (split chat_ids_str 44%N) ->
  strip e <> [] ->
  int_of_str (strip e) = None ->
  allowed_chat_ids config = _parse_chat_ids chat_ids_str ->
  _parse_chat_ids chat_ids_str = []
  /\ is_chat_allowed config chat_id = true.
Proof.
  intros Hin Hne Hint Hcfg.
  assert (Hnil : _parse_chat_ids chat_ids_str = []).
  { unfold _parse_chat_ids.
    destruct (negb (truthy (VStr chat_ids_str))); [reflexivity|].
    now rewrite (chat_ids_of_entries_fails _ e Hin Hne Hint). }
  split; [assumption|].
  apply is_chat_allowed_iff. left. congruence.
Qed.

End AllowList.

Lemma malformed_entry_allows_all_witness :
  @Config._parse_chat_ids Sample.runtime (lit "12, abc,34") = []
  /\ Config.is_chat_allowed
       (Sample.with_chat_ids
          (@Config._parse_chat_ids Sample.runtime (lit "12, abc,34"))) 999
     = true.
Proof.
  apply (@malformed_entry_allows_all Sample.runtime
           (lit "12, abc,34") (lit " abc")
           (Sample.with_chat_ids
              (@Config._parse_chat_ids Sample.runtime (lit "12, abc,34")))
           999%Z).
  - vm_compute. right. left. reflexivity.
  - vm_compute. discriminate.
  - vm_compute. reflexivity.
  - reflexivity.
Defined.

(** A well-formed list is kept, blank entries included. *)
Example parse_chat_ids_sample :
  @Config._parse_chat_ids Sample.runtime (lit "12, -34,,+5 ,") = [12; -34; 5]%Z.
Proof. vm_compute. reflexivity. Qed.

(* ================================================================== *)
(** * Properties: rate limiter                                         *)
(* ================================================================== *)

Section RateLimiter.
Import Config TelegramBot.

Variable config : Config.t.

Local Abbreviation window := (inject_Z (rate_limit_window config)).
Local Abbreviation max_requests := (rate_limit_requests config).

Lemma later_lt (a b : Q) : later a b = true <-> (b < a)%Q.
Proof.
  unfold later. rewrite negb_true_iff, <- not_true_iff_false, Qle_bool_iff.
  split; [apply Qnot_le_lt|apply Qlt_not_le].
Qed.

Lemma requests_of_insert (limits : rate_limits) (c : Z) (l : list Q) :
  requests_of (<[c := l]> limits) c = l.
Proof. unfold requests_of. now rewrite lookup_insert_eq. Qed.

Lemma requests_of_insert_ne (limits : rate_limits) (c c' : Z) (l : list Q) :
  c <> c' -> requests_of (<[c := l]> limits) c' = requests_of limits c'.
Proof. intros Hne. unfold requests_of. now rewrite lookup_insert_ne. Qed.

Lemma requests_of_empty (c : Z) : requests_of ∅ c = [].
Proof. unfold requests_of. now rewrite lookup_empty. Qed.

(** The answer of one check. *)
Lemma is_rate_limited_answer (now : Q) (c : Z) (limits : rate_limits) :
  fst (is_rate_limited config now c limits)
  = (Z.of_nat (length (recent config now (requests_of limits c))) >=? max_requests)%Z.
Proof.
  unfold is_rate_limited, recent.
  now destruct (_ >=? _)%Z.
Qed.

(** The list of the checked chat after one check. *)
Lemma is_rate_limited_stored (now : Q) (c : Z) (limits : rate_limits) :
  requests_of (snd (is_rate_limited config now c limits)) c
  = if fst (is_rate_limited config now c limits)
    then recent config now (requests_of limits c)
    else recent config now (requests_of limits c) ++ [now].
Proof.
  unfold is_rate_limited, recent.
  destruct (_ >=? _)%Z; cbn [fst snd]; now rewrite requests_of_insert.
Qed.

(** The lists of the other chats are left alone. *)
Lemma is_rate_limited_other (now : Q) (c c' : Z) (limits : rate_limits) :
  c <> c' ->
  requests_of (snd (is_rate_limited config now c limits)) c'
  = requests_of limits c'.
Proof.
  intros Hne. unfold is_rate_limited.
  destruct (_ >=? _)%Z; cbn [snd];
    now rewrite ?requests_of_insert_ne by assumption.
Qed.

Lemma recent_In (now t : Q) (l : list Q) :
  In t (recent config now l) <-> In t l /\ (now - window < t)%Q.
Proof. unfold recent. now rewrite filter_In, later_lt. Qed.

Lemma recent_length_le (now : Q) (l : list Q) :
  (length (recent config now l) <= length l)%nat.
Proof.
  induction l as [|x l IH]; [reflexivity|].
  unfold recent in *. cbn [List.filter].
  destruct (later _ _); cbn [length]; lia.
Qed.

(** Pruning at an earlier instant loses nothing that a later check keeps. *)
Lemma recent_recent (now now' : Q) (l : list Q) :
  (now' <= now)%Q -> recent config now (recent config now' l) = recent config now l.
Proof.
  intros Hle. induction l as [|x l IH]; [reflexivity|].
  unfold recent in *. cbn [List.filter].
  destruct (later x (now' - window)) eqn:E1.
  - cbn [List.filter]. now rewrite IH.
  - destruct (later x (now - window)) eqn:E2; [|assumption].
    apply later_lt in E2. apply not_true_iff_false in E1.
    exfalso. apply E1. apply later_lt. lra.
Qed.

Lemma recent_app (now : Q) (l1 l2 : list Q) :
  recent config now (l1 ++ l2) = recent config now l1 ++ recent config now l2.
Proof. unfold recent. apply List.filter_app. Qed.

Lemma recent_all_stale (now : Q) (l : list Q) :
  (forall t, In t l -> (t <= now - window)%Q) -> recent config now l = [].
Proof.
  intros Hall. induction l as [|x l IH]; [reflexivity|].
  unfold recent in *. cbn [List.filter].
  destruct (later x (now - window)) eqn:E.
  - apply later_lt in E. specialize (Hall x (or_introl eq_refl)). lra.
  - apply IH. intros t Ht. apply Hall. now right.
Qed.

(** Each admitted call leaves one more request inside the window of a
    check made at [t], as long as the calls are made within that window. *)
Lemma run_checks_recent (c : Z) (t : Q) (calls : list (Q * Z))
    (limits : rate_limits) :
  (forall call, In call calls -> (t - window < fst call /\ fst call <= t)%Q) ->
  (length (recent config t (requests_of limits c))
   + admitted c calls (fst (run_checks config calls limits))
   <= length (recent config t (requests_of (snd (run_checks config calls limits)) c)))%nat.
Proof.
  revert limits. induction calls as [|[now c'] calls IH]; intros limits Hin.
  - cbn. lia.
  - cbn [run_checks].
    pose proof (is_rate_limited_answer now c' limits) as Hans.
    pose proof (is_rate_limited_stored now c' limits) as Hst.
    pose proof (is_rate_limited_other now c' c limits) as Hoth.
    destruct (is_rate_limited config now c' limits) as [limited limits1].
    cbn [fst snd] in *.
    assert (Hcalls : forall call, In call calls ->
              (t - window < fst call /\ fst call <= t)%Q).
    { intros call Hc. apply Hin. now right. }
    specialize (IH limits1 Hcalls).
    destruct (run_checks config calls limits1) as [answers limits2].
    cbn [fst snd admitted] in *.
    destruct (Hin (now, c') (or_introl eq_refl)) as [Hlo Hhi]. cbn [fst] in *.
    destruct (Z.eqb_spec c' c) as [->|Hne].
    + rewrite Hst in IH. destruct limited; cbn [negb andb].
      * rewrite recent_recent in IH by assumption. lia.
      * rewrite recent_app, recent_recent, length_app in IH by assumption.
        assert (Hnow : recent config t [now] = [now]).
        { unfold recent. cbn [List.filter].
          assert (E : later now (t - window) = true) by (apply later_lt; lra).
          now rewrite E. }
        rewrite Hnow in IH. cbn [length] in IH. lia.
    + rewrite Hoth in IH by assumption. cbn [andb]. lia.
Qed.

(** Stored requests are never later than the latest clock reading. *)
Lemma run_checks_bounded (t0 : Q) (calls : list (Q * Z)) (limits : rate_limits) :
  (forall c t, In t (requests_of limits c) -> (t <= t0)%Q) ->
  (forall call, In call calls -> (fst call <= t0)%Q) ->
  forall c t,
    In t (requests_of (snd (run_checks config calls limits)) c) -> (t <= t0)%Q.
Proof.
  revert limits. induction calls as [|[now c'] calls IH]; intros limits Hl Hc.
  - exact Hl.
  - cbn [run_checks].
    pose proof (is_rate_limited_stored now c' limits) as Hst.
    pose proof (fun c => is_rate_limited_other now c' c limits) as Hoth.
    destruct (is_rate_limited config now c' limits) as [limited limits1].
    cbn [fst snd] in *.
    specialize (IH limits1).
    destruct (run_checks config calls limits1) as [answers limits2].
    cbn [snd] in *. apply IH.
    + intros c t Ht. destruct (Z.eq_dec c' c) as [->|Hne].
      * rewrite Hst in Ht.
        assert (Hrec : forall x, In x (recent config now (requests_of limits c)) ->
                         (x <= t0)%Q).
        { intros x Hx. apply recent_In in Hx as [Hx _]. now apply (Hl c). }
        destruct limited; [now apply Hrec|].
        apply in_app_or in Ht as [Ht|[<-|[]]]; [now apply Hrec|].
        apply (Hc (now, c)). now left.
      * rewrite Hoth in Ht by assumption. now apply (Hl c).
    + intros call Hin. apply Hc. now right.
Qed.

(** C2. One check at [now] for a chat keeps exactly the stored requests
    later than [now - window] (the stale ones are pruned), limits the chat
    iff at least [max_requests] are kept, and on admission appends [now].
    Hence, once [max_requests] calls of a chat have been admitted within
    one window, a further call in that window is rejected; and a call
    made more than a window after every earlier one is admitted again
    (as soon as the limit allows any request at all). *)
Theorem rate_limiter_sliding_window :
  (forall now c limits,
      let kept := recent config now (requests_of limits c) in
      let '(limited, limits') := is_rate_limited config now c limits in
      (forall t, In t kept <-> In t (requests_of limits c) /\ (now - window < t)%Q)
      /\ (limited = false <-> (Z.of_nat (length kept) < max_requests)%Z)
      /\ requests_of limits' c = (if limited then kept else kept ++ [now]))
  /\ (forall c t calls limits,
         (forall call, In call calls ->
                       (t - window < fst call /\ fst call <= t)%Q) ->
         (max_requests
          <= Z.of_nat (admitted c calls (fst (run_checks config calls limits))))%Z ->
         fst (is_rate_limited config t c
                (snd (run_checks config calls limits))) = true)
  /\ (forall c t0 t calls limits,
         (forall c' t', In t' (requests_of limits c') -> (t' <= t0)%Q) ->
         (forall call, In call calls -> (fst call <= t0)%Q) ->
         (t0 + window < t)%Q ->
         (0 < max_requests)%Z ->
         fst (is_rate_limited config t c
                (snd (run_checks config calls limits))) = false).
Proof.
  split; [|split].
  - intros now c limits kept.
    pose proof (is_rate_limited_answer now c limits) as Hans.
    pose proof (is_rate_limited_stored now c limits) as Hst.
    destruct (is_rate_limited config now c limits) as [limited limits'].
    cbn [fst snd] in *. split; [|split].
    + intros t. apply recent_In.
    + rewrite Hans. fold kept. rewrite Z.geb_leb, Z.leb_gt. reflexivity.
    + exact Hst.
  - intros c t calls limits Hin Hmax.
    rewrite is_rate_limited_answer.
    pose proof (run_checks_recent c t calls limits Hin) as Hlen.
    rewrite Z.geb_leb. apply Z.leb_le. lia.
  - intros c t0 t calls limits Hl Hc Ht Hpos.
    rewrite is_rate_limited_answer, recent_all_stale.
    + cbn [length]. rewrite Z.geb_leb. apply Z.leb_gt. exact Hpos.
    + intros x Hx.
      pose proof (run_checks_bounded t0 calls limits Hl Hc c x Hx). lra.
Qed.

(** Every list of a reachable state is within the limit. *)
Lemma reachable_bounded (limits : rate_limits) :
  (0 <= max_requests)%Z ->
  reachable config limits ->
  forall c, (Z.of_nat (length (requests_of limits c)) <= max_requests)%Z.
Proof.
  intros Hmax Hr. induction Hr as [|now chat limits Hr IH]; intros c.
  - rewrite requests_of_empty. exact Hmax.
  - destruct (Z.eq_dec chat c) as [->|Hne].
    + rewrite is_rate_limited_stored, is_rate_limited_answer.
      pose proof (recent_length_le now (requests_of limits c)) as Hle.
      specialize (IH c).
      destruct (_ >=? _)%Z eqn:E.
      * lia.
      * rewrite Z.geb_leb in E. apply Z.leb_gt in E.
        rewrite length_app. cbn [length]. lia.
    + rewrite is_rate_limited_other by assumption. apply IH.
Qed.

Lemma reachable_run_checks (calls : list (Q * Z)) (limits : rate_limits) :
  reachable config limits ->
  reachable config (snd (run_checks config calls limits)).
Proof.
  revert limits. induction calls as [|[now c] calls IH]; intros limits Hr.
  - exact Hr.
  - cbn [run_checks].
    pose proof (reachable_step config now c limits Hr) as Hstep.
    destruct (is_rate_limited config now c limits) as [limited limits1].
    cbn [snd] in Hstep. specialize (IH limits1 Hstep).
    now destruct (run_checks config calls limits1).
Qed.

(** C9. Whatever calls the bot has served, after one more check the list
    stored for any chat holds at most [max_requests] requests, and a
    rejected call appends nothing: its chat is left with the pruned list. *)
Theorem rate_limit_window_bounded (limits : rate_limits) (now : Q) (chat_id : Z) :
  (0 <= max_requests)%Z ->
  reachable config limits ->
  (forall c,
      (Z.of_nat (length (requests_of (snd (is_rate_limited config now chat_id limits)) c))
       <= max_requests)%Z)
  /\ (fst (is_rate_limited config now chat_id limits) = true ->
      requests_of (snd (is_rate_limited config now chat_id limits)) chat_id
      = recent config now (requests_of limits chat_id)).
Proof.
  intros Hmax Hr. split.
  - apply reachable_bounded; [assumption|]. now constructor.
  - intros Hlim. now rewrite is_rate_limited_stored, Hlim.
Qed.

End RateLimiter.


Lemma rate_limiter_sliding_window_witness :
  fst (TelegramBot.is_rate_limited Sample.two_per_minute 30 1
         (snd (TelegramBot.run_checks Sample.two_per_minute
                 [(0%Q, 1%Z); (10%Q, 1%Z)] ∅))) = true
  /\ fst (TelegramBot.is_rate_limited Sample.two_per_minute 71 1
            (snd (TelegramBot.run_checks Sample.two_per_minute
                    [(0%Q, 1%Z); (10%Q, 1%Z)] ∅))) = false.
Proof.
  destruct (rate_limiter_sliding_window Sample.two_per_minute)
    as (_ & Hburst & Hafter).
  split.
  - apply Hburst.
    + intros call [<-|[<-|[]]]; split; vm_compute; congruence.
    + vm_compute. congruence.
  - apply (Hafter 1%Z 10%Q).
    + intros c' t' Hin. rewrite requests_of_empty in Hin. destruct Hin.
    + intros call [<-|[<-|[]]]; vm_compute; congruence.
    + vm_compute. reflexivity.
    + reflexivity.
Defined.

Lemma rate_limit_window_bounded_witness :
  (forall c,
      (Z.of_nat (length (TelegramBot.requests_of
         (snd (TelegramBot.is_rate_limited Sample.two_per_minute 30 1
                 (snd (TelegramBot.run_checks Sample.two_per_minute
                         [(0%Q, 1%Z); (10%Q, 1%Z)] ∅)))) c)) <= 2)%Z)
  /\ (fst (TelegramBot.is_rate_limited Sample.two_per_minute 30 1
             (snd (TelegramBot.run_checks Sample.two_per_minute
                     [(0%Q, 1%Z); (10%Q, 1%Z)] ∅))) = true ->
      TelegramBot.requests_of
        (snd (TelegramBot.is_rate_limited Sample.two_per_minute 30 1
                (snd (TelegramBot.run_checks Sample.two_per_minute
                        [(0%Q, 1%Z); (10%Q, 1%Z)] ∅)))) 1
      = recent Sample.two_per_minute 30
          (TelegramBot.requests_of
             (snd (TelegramBot.run_checks Sample.two_per_minute
                     [(0%Q, 1%Z); (10%Q, 1%Z)] ∅)) 1)).
Proof.
  apply (rate_limit_window_bounded Sample.two_per_minute
           (snd (TelegramBot.run_checks Sample.two_per_minute
                   [(0%Q, 1%Z); (10%Q, 1%Z)] ∅)) 30%Q 1%Z).
  - vm_compute. congruence.
  - apply reachable_run_checks. constructor.
Defined.

(** Two requests fill the window, the third is refused and stores
    nothing, and a request after the window is served again. *)
Example rate_limiter_run :
  fst (TelegramBot.run_checks Sample.two_per_minute
         [(0%Q, 1%Z); (10%Q, 1%Z); (30%Q, 1%Z); (31%Q, 2%Z); (71%Q, 1%Z)] ∅)
  = [false; false; true; false; false]
  /\ TelegramBot.requests_of
       (snd (TelegramBot.run_checks Sample.two_per_minute
               [(0%Q, 1%Z); (10%Q, 1%Z); (30%Q, 1%Z)] ∅)) 1
     = [0%Q; 10%Q].
Proof. split; vm_compute; reflexivity. Qed.

(* ================================================================== *)
(** * Properties: signature verification                               *)
(* ================================================================== *)

Section Signature.
Import Config WebhookHandler.

Lemma str_eqb_eq (a b : str) : str_eqb a b = true <-> a = b.
Proof.
  revert b. induction a as [|x a IH]; intros [|y b]; cbn [str_eqb];
    try (split; [discriminate|congruence]); [split; reflexivity|].
  rewrite andb_true_iff, N.eqb_eq, IH. split.
  - intros [-> ->]. reflexivity.
  - intros E. now inversion E.
Qed.

Lemma str_eqb_refl (a : str) : str_eqb a a = true.
Proof. now apply str_eqb_eq. Qed.

Lemma startswith_app (p s : str) : startswith (p ++ s) p = true.
Proof.
  induction p as [|c p IH]; [reflexivity|].
  cbn [app startswith]. now rewrite N.eqb_refl, IH.
Qed.

Lemma hex_digit_ascii (n : N) : (n < 16)%N -> (Hashlib.hex_digit n < 128)%N.
Proof. unfold Hashlib.hex_digit. destruct (N.ltb_spec n 10); lia. Qed.

Lemma be_bytes_small (n : nat) (x : N) :
  Forall (fun b => (b < 256)%N) (Hashlib.be_bytes n x).
Proof.
  induction n as [|n IH]; constructor; [|assumption].
  change 256%N with (2 ^ 8)%N. change 255%N with (N.ones 8).
  rewrite N.land_ones. apply N.mod_lt. discriminate.
Qed.

Lemma sha256_small (msg : bytes) :
  Forall (fun b => (b < 256)%N) (Hashlib.sha256 msg).
Proof.
  unfold Hashlib.sha256. generalize (fold_left Hashlib.compress
    (Hashlib.blocks (length (Hashlib.pad msg) / 64) (Hashlib.pad msg))
    Hashlib.IV256) as h.
  induction h as [|w h IH]; [constructor|].
  cbn [flat_map]. apply Forall_app. split; [apply be_bytes_small|assumption].
Qed.

Lemma hex_ascii (b : bytes) :
  Forall (fun x => (x < 256)%N) b -> Hmac.is_ascii (Hashlib.hex b) = true.
Proof.
  induction 1 as [|x b Hx Hb IH]; [reflexivity|].
  unfold Hashlib.hex in *. cbn [flat_map app Hmac.is_ascii forallb].
  fold (Hmac.is_ascii (flat_map
    (fun x => [Hashlib.hex_digit (N.shiftr x 4); Hashlib.hex_digit (N.land x 15)]) b)).
  rewrite IH, andb_true_r. apply andb_true_iff. split; apply N.ltb_lt.
  - apply hex_digit_ascii. rewrite N.shiftr_div_pow2.
    apply N.Div0.div_lt_upper_bound. exact Hx.
  - apply hex_digit_ascii. change 15%N with (N.ones 4).
    rewrite N.land_ones. apply N.mod_lt. discriminate.
Qed.

(** A hexadecimal digest is plain ASCII. *)
Lemma hexdigest_ascii (key msg : bytes) :
  Hmac.is_ascii (Hmac.hexdigest key msg) = true.
Proof. apply hex_ascii, sha256_small. Qed.

Variable config : Config.t.
Local Abbreviation secret := (github_webhook_secret config).

(** No secret configured: every request passes. *)
Lemma verify_signature_no_secret (payload_body : bytes) (header : option str) :
  secret = [] -> verify_signature config payload_body header = Ok true.
Proof. intros E. unfold verify_signature. now rewrite E. Qed.

(** With a secret, a missing header or one without the prefix fails. *)
Lemma verify_signature_no_prefix (payload_body : bytes) (header : option str) :
  secret <> [] ->
  match header with
  | None => True
  | Some h => startswith h (lit "sha256=") = false
  end ->
  verify_signature config payload_body header = Ok false.
Proof.
  intros Hs Hh. unfold verify_signature.
  destruct secret as [|c s]; [congruence|]. cbn [truthy negb].
  destruct header as [h|]; [|reflexivity].
  rewrite Hh. now destruct h.
Qed.

(** With a secret and a prefixed header, the answer is that of
    [compare_digest] on the expected digest and the rest of the header. *)
Lemma verify_signature_compares (payload_body key : bytes) (h : str) :
  secret <> [] ->
  Codec.utf8_encode secret = Ok key ->
  startswith h (lit "sha256=") = true ->
  verify_signature config payload_body (Some h)
  = Hmac.compare_digest (Hmac.hexdigest key payload_body) (skipn 7 h).
Proof.
  intros Hs Hk Hh. unfold verify_signature.
  destruct secret as [|c s] eqn:E; [congruence|]. cbn [truthy negb].
  destruct h as [|x h]; [discriminate|]. cbn [truthy negb].
  rewrite Hh. cbn [negb]. rewrite Hk. reflexivity.
Qed.

Lemma verify_signature_correct (payload_body key : bytes) :
  secret <> [] ->
  Codec.utf8_encode secret = Ok key ->
  verify_signature config payload_body
    (Some (lit "sha256=" ++ Hmac.hexdigest key payload_body)) = Ok true.
Proof.
  intros Hs Hk.
  rewrite (verify_signature_compares payload_body key) by
    (assumption || apply startswith_app).
  change (skipn 7 (lit "sha256=" ++ ?d)) with d.
  unfold Hmac.compare_digest.
  now rewrite hexdigest_ascii, str_eqb_refl.
Qed.

Lemma verify_signature_wrong_digest (payload_body key : bytes) (d : str) :
  secret <> [] ->
  Codec.utf8_encode secret = Ok key ->
  Hmac.is_ascii d = true ->
  d <> Hmac.hexdigest key payload_body ->
  verify_signature config payload_body (Some (lit "sha256=" ++ d)) = Ok false.
Proof.
  intros Hs Hk Ha Hd.
  rewrite (verify_signature_compares payload_body key) by
    (assumption || apply startswith_app).
  change (skipn 7 (lit "sha256=" ++ d)) with d.
  unfold Hmac.compare_digest. rewrite hexdigest_ascii, Ha. cbn [andb].
  f_equal. apply not_true_iff_false. rewrite str_eqb_eq. congruence.
Qed.

(** A header with a character outside ASCII after the prefix makes
    [compare_digest] raise: no boolean is returned. *)
Lemma verify_signature_non_ascii (payload_body key : bytes) (d : str) :
  secret <> [] ->
  Codec.utf8_encode secret = Ok key ->
  Hmac.is_ascii d = false ->
  verify_signature config payload_body (Some (lit "sha256=" ++ d))
  = Raise TypeError.
Proof.
  intros Hs Hk Ha.
  rewrite (verify_signature_compares payload_body key) by
    (assumption || apply startswith_app).
  change (skipn 7 (lit "sha256=" ++ d)) with d.
  unfold Hmac.compare_digest. now rewrite Ha, andb_false_r.
Qed.

(** What [verify_signature] does on the inputs it handles: everything
    passes without a secret; with one, a missing or unprefixed header
    fails, the header carrying the digest of the body passes and a header
    carrying any other ASCII text fails. *)
Lemma verify_signature_contract (payload_body key : bytes) :
  (secret = [] ->
   forall header, verify_signature config payload_body header = Ok true)
  /\ (secret <> [] ->
      verify_signature config payload_body None = Ok false
      /\ (forall h, startswith h (lit "sha256=") = false ->
                    verify_signature config payload_body (Some h) = Ok false))
  /\ (secret <> [] -> Codec.utf8_encode secret = Ok key ->
      verify_signature config payload_body
        (Some (lit "sha256=" ++ Hmac.hexdigest key payload_body)) = Ok true
      /\ (forall d, Hmac.is_ascii d = true ->
                    d <> Hmac.hexdigest key payload_body ->
                    verify_signature config payload_body
                      (Some (lit "sha256=" ++ d)) = Ok false)).
Proof.
  split; [|split].
  - intros E header. now apply verify_signature_no_secret.
  - intros Hs. split.
    + now apply verify_signature_no_prefix.
    + intros h Hh. now apply verify_signature_no_prefix.
  - intros Hs Hk. split.
    + now apply (verify_signature_correct payload_body key).
    + intros d Ha Hd. now apply (verify_signature_wrong_digest payload_body key).
Qed.

End Signature.

(** C1 (where the code departs from it). With the secret [s] configured, a
    header that has the prefix and then a character outside ASCII does not
    make [verify_signature] return false: comparing the digests raises
    [TypeError]. The same happens when one bit of a correct header is
    flipped into the high bit of a digest character. *)
Theorem verify_signature_non_ascii_header_raises :
  WebhookHandler.verify_signature (Sample.with_secret (lit "s")) (lit "{}")
    (Some (lit "sha256=" ++ [233%N])) = Raise TypeError
  /\ WebhookHandler.verify_signature (Sample.with_secret (lit "s")) (lit "{}")
       (Some (lit "sha256="
              ++ match Hmac.hexdigest [115%N] (lit "{}") with
                 | c :: digest => (c + 128)%N :: digest
                 | [] => []
                 end)) = Raise TypeError.
Proof. split; vm_compute; reflexivity. Qed.

(** The digest of the body under the secret passes, and the digest of
    another body does not. *)
Example verify_signature_sample :
  WebhookHandler.verify_signature (Sample.with_secret (lit "s")) (lit "{}")
    (Some (lit "sha256=" ++ Hmac.hexdigest [115%N] (lit "{}"))) = Ok true
  /\ WebhookHandler.verify_signature (Sample.with_secret (lit "s")) (lit "{}")
       (Some (lit "sha256=" ++ Hmac.hexdigest [115%N] (lit "[]"))) = Ok false
  /\ Hmac.hexdigest (lit "key")
       (lit "The quick brown fox jumps over the lazy dog")
     = lit "f7bc83f430538424b13298e6aa6fb143ef4d59a14946175997479dbc2d1a3cd8".
Proof. repeat split; vm_compute; reflexivity. Qed.



(* ================================================================== *)
(** * Properties: webhook responses                                    *)
(* ================================================================== *)

Section Responses.
Import Config WebhookHandler.
Context `{Runtime}.

(** The response of [process_webhook], case by case. *)
Lemma process_webhook_response (config : Config.t) (req : request) :
  fst (process_webhook config req)
  = match verify_signature config (get_data req) (x_hub_signature_256 req) with
    | Ok false => respond "error" "Invalid signature" 403
    | Ok true =>
        match parse_body (get_data req) with
        | Ok _ => respond "status" "success" 200
        | Raise JSONDecodeError => respond "error" "Invalid JSON" 400
        | Raise _ => respond "error" "Internal server error" 500
        end
    | Raise _ => respond "error" "Internal server error" 500
    end.
Proof.
  unfold process_webhook, parse_body.
  destruct (verify_signature _ _ _) as [[|]|e]; cbn [bind negb fst];
    try reflexivity.
  destruct (Codec.utf8_decode (get_data req)) as [text|e]; cbn [bind].
  - destruct (json_loads text) as [payload|[]]; reflexivity.
  - destruct e; reflexivity.
Qed.

(** An accepted request is answered with success whatever its event type
    and whether or not a notification is sent. *)
Lemma process_webhook_accepts (config : Config.t) (req : request) (payload : value) :
  verify_signature config (get_data req) (x_hub_signature_256 req) = Ok true ->
  parse_body (get_data req) = Ok payload ->
  process_webhook config req
  = (respond "status" "success" 200,
     handle_github_event config (x_github_event req) payload).
Proof.
  unfold process_webhook, parse_body. intros -> Hp. cbn [bind negb].
  destruct (Codec.utf8_decode (get_data req)) as [text|e]; cbn [bind] in *;
    [|discriminate].
  now rewrite Hp.
Qed.

(** Octets that are not UTF-8 are not a [JSONDecodeError]. *)
Lemma parse_body_undecodable (payload_body : bytes) :
  Codec.utf8_decode payload_body = Raise UnicodeDecodeError ->
  parse_body payload_body = Raise UnicodeDecodeError.
Proof. unfold parse_body. now intros ->. Qed.

(** C5 (where the code departs from it). A body that is not UTF-8 cannot
    be parsed as JSON, yet the answer is not 400 [Invalid JSON]: decoding
    raises [UnicodeDecodeError], which the handler for [JSONDecodeError]
    lets through, and the request is answered with 500. Likewise a
    signature header with a character outside ASCII is answered with 500
    and not with 403. *)
Theorem process_webhook_undecodable_body :
  process_webhook Sample.default_config
    {| get_data := [255%N];
       x_hub_signature_256 := None;
       x_github_event := Some (lit "push") |}
  = (respond "error" "Internal server error" 500, None)
  /\ process_webhook (Sample.with_secret (lit "s"))
       {| get_data := lit "{}";
          x_hub_signature_256 := Some (lit "sha256=" ++ [233%N]);
          x_github_event := Some (lit "push") |}
     = (respond "error" "Internal server error" 500, None).
Proof. split; vm_compute; reflexivity. Qed.

End Responses.

(** The four answers on the sample reader: success (an event of an
    unknown type, nothing sent), wrong signature, text that is not JSON. *)
Example process_webhook_sample :
  @WebhookHandler.process_webhook Sample.runtime Sample.default_config
    {| WebhookHandler.get_data := lit "{}";
       WebhookHandler.x_hub_signature_256 := None;
       WebhookHandler.x_github_event := Some (lit "foo") |}
  = (WebhookHandler.respond "status" "success" 200, None)
  /\ @WebhookHandler.process_webhook Sample.runtime (Sample.with_secret (lit "s"))
       {| WebhookHandler.get_data := lit "{}";
          WebhookHandler.x_hub_signature_256 := Some (lit "sha256=00");
          WebhookHandler.x_github_event := Some (lit "push") |}
     = (WebhookHandler.respond "error" "Invalid signature" 403, None)
  /\ @WebhookHandler.process_webhook Sample.runtime Sample.default_config
       {| WebhookHandler.get_data := lit "{";
          WebhookHandler.x_hub_signature_256 := None;
          WebhookHandler.x_github_event := Some (lit "push") |}
     = (WebhookHandler.respond "error" "Invalid JSON" 400, None).
Proof. repeat split; vm_compute; reflexivity. Qed.



(* ================================================================== *)
(** * Properties: objects and numbers                                  *)
(* ================================================================== *)

Section Objects.

Lemma dict_get_bound (d : list (str * value)) (k : str) (x : value) :
  unique_keys d = true -> In (k, x) d -> dict_get d k = Some x.
Proof.
  induction d as [|[k' v'] r IH]; [contradiction|].
  cbn [unique_keys dict_get In]. intros Hu [E|Hin].
  - injection E as -> ->. now rewrite str_eqb_refl.
  - apply andb_prop in Hu as [Hn Hu]. destruct (str_eqb k' k) eqn:Ek.
    + apply str_eqb_eq in Ek. subst k'. apply negb_true_iff in Hn.
      assert (Hex : existsb (fun kv => str_eqb (fst kv) k) r = true).
      { apply existsb_exists. exists (k, x). split; [assumption|].
        apply str_eqb_refl. }
      congruence.
    + now apply IH.
Qed.

Lemma dict_get_unbound (d : list (str * value)) (k : str) :
  (forall x, ~ In (k, x) d) -> dict_get d k = None.
Proof.
  induction d as [|[k' v'] r IH]; [reflexivity|].
  cbn [dict_get In]. intros Hn. destruct (str_eqb k' k) eqn:Ek.
  - apply str_eqb_eq in Ek. subst k'. exfalso. apply (Hn v'). now left.
  - apply IH. intros x Hin. apply (Hn x). now right.
Qed.

(** [get] finds a key that is bound, whatever the default and the other
    keys. *)
Lemma has_get (v : value) (k : string) (x default : value) :
  has v k x -> get v (lit k) default = Ok x.
Proof.
  intros (d & -> & Hu & Hin). cbn [get].
  now rewrite (dict_get_bound d (lit k) x Hu Hin).
Qed.

(** [get] answers the default for a key that is not bound. *)
Lemma lacks_get (v : value) (k : string) (default : value) :
  lacks v k -> get v (lit k) default = Ok default.
Proof.
  intros (d & -> & Hn). cbn [get]. now rewrite (dict_get_unbound d (lit k) Hn).
Qed.

Lemma uint_digits_digits (u : Decimal.uint) :
  forallb is_digit (uint_digits u) = true.
Proof.
  induction u; cbn [uint_digits forallb]; try reflexivity;
    rewrite IHu; reflexivity.
Qed.

Lemma decimal_acc_nat (d : Decimal.uint) (acc : nat) :
  decimal_acc (uint_digits d) (N.of_nat acc)
  = Some (N.of_nat (Nat.of_uint_acc d acc)).
Proof.
  revert acc.
  induction d as [|d IH|d IH|d IH|d IH|d IH|d IH|d IH|d IH|d IH|d IH];
    intros acc; cbn [uint_digits decimal_acc Nat.of_uint_acc];
    [reflexivity|..];
    match goal with
    | |- context [is_digit ?c] => change (is_digit c) with true
    end;
    cbv iota; rewrite <- IH; f_equal; rewrite Nat.tail_mul_spec; lia.
Qed.

Lemma decimal_acc_pos (d : Decimal.uint) (acc : positive) :
  decimal_acc (uint_digits d) (N.pos acc)
  = Some (N.pos (Pos.of_uint_acc d acc)).
Proof.
  revert acc.
  induction d as [|d IH|d IH|d IH|d IH|d IH|d IH|d IH|d IH|d IH|d IH];
    intros acc; cbn [uint_digits decimal_acc Pos.of_uint_acc];
    [reflexivity|..];
    match goal with
    | |- context [is_digit ?c] => change (is_digit c) with true
    end;
    cbv iota; rewrite <- IH; f_equal; lia.
Qed.

Lemma decimal_acc_zero (d : Decimal.uint) :
  decimal_acc (uint_digits d) 0 = Some (Pos.of_uint d).
Proof.
  induction d as [|d IH|d IH|d IH|d IH|d IH|d IH|d IH|d IH|d IH|d IH];
    cbn [uint_digits decimal_acc Pos.of_uint];
    [reflexivity|exact IH|..]; apply decimal_acc_pos.
Qed.

Lemma to_uint_not_nil (n : nat) : Nat.to_uint n <> Decimal.Nil.
Proof.
  intros E. pose proof (DecimalNat.Unsigned.of_to n) as Hn.
  rewrite E in Hn. cbn in Hn. subst n. discriminate E.
Qed.

(** [str] writes a natural number in decimal. *)
Lemma str_of_nat_reads (n : nat) :
  decimal_value (str_of_nat n) = Some (N.of_nat n).
Proof.
  unfold str_of_nat, decimal_value.
  pose proof (to_uint_not_nil n) as Hne.
  pose proof (decimal_acc_nat (Nat.to_uint n) 0) as Hr.
  change (Nat.of_uint_acc (Nat.to_uint n) 0) with (Nat.of_uint (Nat.to_uint n))
    in Hr.
  rewrite DecimalNat.Unsigned.of_to in Hr. cbn [N.of_nat] in Hr.
  destruct (Nat.to_uint n); [congruence|..]; exact Hr.
Qed.

Lemma decimal_value_pos (p : positive) :
  decimal_value (uint_digits (Pos.to_uint p)) = Some (N.pos p).
Proof.
  unfold decimal_value.
  pose proof (DecimalPos.Unsigned.to_uint_nonnil p) as Hne.
  pose proof (decimal_acc_zero (Pos.to_uint p)) as Hr.
  rewrite DecimalPos.Unsigned.of_to in Hr.
  destruct (Pos.to_uint p); [congruence|..]; exact Hr.
Qed.

(** [str] writes an integer in decimal, with a minus sign when it is
    negative. *)
Lemma str_of_Z_reads (z : Z) : integer_value (str_of_Z z) = Some z.
Proof.
  destruct z as [|p|p]; cbn [str_of_Z].
  - reflexivity.
  - pose proof (decimal_value_pos p) as Hr.
    pose proof (uint_digits_digits (Pos.to_uint p)) as Hd.
    destruct (uint_digits (Pos.to_uint p)) as [|c r]; [discriminate|].
    cbn [integer_value]. cbn [forallb] in Hd. apply andb_prop in Hd as [Hc _].
    destruct (N.eqb_spec c 45) as [->|_]; [discriminate|].
    now rewrite Hr.
  - cbn [integer_value]. rewrite N.eqb_refl, decimal_value_pos. reflexivity.
Qed.

End Objects.

(** Solves [has v k x] for an object that is written out. *)
Ltac has_field :=
  eexists; split; [reflexivity|]; split; [reflexivity|];
  cbn [In]; eauto 20.

(** Solves [lacks v k] for an object that is written out. *)
Ltac lacks_field :=
  eexists; split; [reflexivity|]; intros x; cbn [In];
  intuition discriminate.

(* ================================================================== *)
(** * Properties: push events                                          *)
(* ================================================================== *)

Section PushEvents.
Import Config Utils WebhookHandler.
Context `{Runtime}.

Lemma append_commits_typed (vs : list value) (cs : list commit)
    (message : str) :
  Forall2 is_commit vs cs ->
  append_commits vs message
  = Ok (message ++ concat (List.map commit_lines cs)).
Proof.
  intros Hcs. revert message.
  induction Hcs as [|v c vs cs Hc _ IH]; intros message.
  - cbn. now rewrite app_nil_r.
  - destruct Hc as (Hmessage & (author & Hauthor & Hname) & Hid & Hurl).
    cbn [List.map append_commits].
    rewrite (has_get _ _ _ _ Hmessage), (has_get _ _ _ _ Hauthor).
    cbn [bind].
    rewrite (has_get _ _ _ _ Hname), (has_get _ _ _ _ Hid),
      (has_get _ _ _ _ Hurl).
    cbn [bind slice_to]. rewrite !escape_markdown_str. cbn [bind].
    rewrite IH. f_equal. cbn [concat List.map]. unfold commit_lines, py_str.
    cbn [str_of_scalar]. now rewrite <- !app_assoc.
Qed.

(** An empty [commits] suppresses the notification, whatever else the
    payload holds. *)
Lemma format_push_event_no_commits (payload : value) :
  get payload (lit "commits") (VList []) = Ok (VList []) ->
  format_push_event payload = None.
Proof.
  intros Hc. unfold format_push_event. rewrite Hc.
  destruct (get payload (lit "repository") (VDict [])) as [r|]; [|reflexivity].
  cbn [bind].
  destruct (get r (lit "full_name") (VStr (lit "Unknown"))); [|reflexivity].
  cbn [bind].
  destruct (get payload (lit "ref") (VStr [])) as [ref|]; [|reflexivity].
  cbn [bind]. destruct (branch_of ref); [|reflexivity]. cbn [bind].
  destruct (get payload (lit "pusher") (VDict [])) as [q|]; [|reflexivity].
  cbn [bind].
  destruct (get q (lit "name") (VStr (lit "Unknown"))); reflexivity.
Qed.

Lemma format_push_event_typed (payload : value) (p : push) :
  is_push payload p ->
  push_commits p <> [] ->
  format_push_event payload = Some (push_message p).
Proof.
  intros (Href & (repository & Hrepo & Hfull & Hurl)
          & (pusher & Hpusher & Hname) & (commits & Hcommits & Hcs)) Hne.
  unfold format_push_event.
  rewrite (has_get _ _ _ _ Hrepo). cbn [bind].
  rewrite (has_get _ _ _ _ Hfull), (has_get _ _ _ _ Href). cbn [bind branch_of].
  rewrite (has_get _ _ _ _ Hcommits), (has_get _ _ _ _ Hpusher). cbn [bind].
  rewrite (has_get _ _ _ _ Hname), (has_get _ _ _ _ Hurl). cbn [bind].
  pose proof Hcs as Hlen. apply Forall2_length in Hlen.
  assert (Htrue : truthy (VList commits) = true).
  { destruct Hcs; [congruence|reflexivity]. }
  rewrite Htrue. cbn [negb]. rewrite !escape_markdown_str.
  cbn [bind len slice_to iter].
  rewrite (append_commits_typed (firstn 3 commits) (firstn 3 (push_commits p)))
    by (now apply Forall2_take).
  cbn [bind catch_all]. f_equal. rewrite Hlen.
  unfold push_message, more_commits, repository_link, branch_name, py_str.
  cbn [str_of_scalar truthy].
  destruct (Nat.ltb 3 (length (push_commits p)));
    destruct (push_repo_url p); rewrite <- ?app_assoc, ?app_nil_r;
    reflexivity.
Qed.

Lemma more_commits_empty (total : nat) :
  more_commits total = [] <-> (total <= 3)%nat.
Proof.
  unfold more_commits. destruct (Nat.ltb_spec 3 total) as [Hlt|Hle].
  - split; [discriminate|lia].
  - split; [intros _; exact Hle|reflexivity].
Qed.

(** C4. With push notifications enabled, a push event whose [commits] is
    empty is classified to no message. A push event that carries a [ref],
    a repository with its full name and URL, a pusher with a name and a
    non-empty list of commits, each with message, author name, id and URL
    (all of them strings, and among any further keys in the payload, the
    repository, the pusher, the commits and their authors) is rendered as
    [push_message]: the escaped repository full name, the branch (last
    segment of [ref] after [refs/heads/], else [ref] itself), the pusher,
    the number of commits, the first three commits at most, and then the
    [N more commits] line, which is present exactly when there are more
    than three commits. The two numbers are written in decimal: reading
    the digits gives the number back. *)
Theorem push_event_formatting (config : Config.t) :
  notify_on_push config = true ->
  (forall payload,
      get payload (lit "commits") (VList []) = Ok (VList []) ->
      classify_and_format config (Some (lit "push")) payload = Ok None)
  /\ (forall payload p,
         is_push payload p ->
         push_commits p <> [] ->
         classify_and_format config (Some (lit "push")) payload
         = Ok (Some (push_message p)))
  /\ (forall total, more_commits total = [] <-> (total <= 3)%nat)
  /\ (forall n, decimal_value (str_of_nat n) = Some (N.of_nat n)).
Proof.
  intros Hon. unfold classify_and_format.
  replace (is_event (Some (lit "push")) "push") with true by reflexivity.
  rewrite Hon. cbn [andb]. split; [|split; [|split]].
  - intros payload Hc. now rewrite format_push_event_no_commits.
  - intros payload p Hp Hne. now rewrite (format_push_event_typed payload p).
  - apply more_commits_empty.
  - apply str_of_nat_reads.
Qed.

End PushEvents.

(** The payload written from a record carries its fields, and so does a
    delivery with the further fields GitHub sends. *)
Lemma push_payload_is_push (p : push) :
  is_push (push_payload p) p /\ is_push (Sample2.push_delivery p) p.
Proof.
  split.
  - split; [has_field|]. split; [|split].
    + eexists. split; [has_field|]. split; has_field.
    + eexists. split; [has_field|]. has_field.
    + eexists. split; [has_field|].
      induction (push_commits p) as [|c cs IH]; constructor; [|exact IH].
      split; [has_field|]. split; [|split; has_field].
      eexists. split; [has_field|]. has_field.
  - split; [has_field|]. split; [|split].
    + eexists. split; [has_field|]. split; has_field.
    + eexists. split; [has_field|]. has_field.
    + eexists. split; [has_field|].
      induction (push_commits p) as [|c cs IH]; constructor; [|exact IH].
      split; [has_field|]. split; [|split; has_field].
      eexists. split; [has_field|]. has_field.
Qed.

Lemma push_event_formatting_witness :
  @WebhookHandler.classify_and_format Sample.runtime Sample.default_config
    (Some (lit "push")) Sample2.empty_push_delivery = Ok None
  /\ @WebhookHandler.classify_and_format Sample.runtime Sample.default_config
       (Some (lit "push")) (Sample2.push_delivery Sample.five_commits)
     = Ok (Some Sample2.five_commits_text).
Proof.
  destruct (@push_event_formatting Sample.runtime Sample.default_config eq_refl)
    as (Hnone & Hsome & _).
  split.
  - apply Hnone. reflexivity.
  - transitivity
      (@Ok (option str) (Some (push_message Sample.five_commits)));
      [|vm_compute; reflexivity].
    apply Hsome; [|discriminate]. apply push_payload_is_push.
Defined.

(** The message of a push of five commits, spelled out: three commits are
    shown and two are announced. *)
Example push_message_five_commits :
  @WebhookHandler.format_push_event Sample.runtime
    (push_payload Sample.five_commits)
  = Some Sample2.five_commits_text.
Proof. vm_compute. reflexivity. Qed.

(** Faults and switches: a payload that is not an object, a repository
    that is [null], and notifications turned off all give no message. *)
Example push_event_suppressed :
  @WebhookHandler.format_push_event Sample.runtime (VList []) = None
  /\ @WebhookHandler.format_push_event Sample.runtime
       (VDict [(lit "repository", VNone);
               (lit "commits", VList [commit_value (Sample.commit_number "1")])])
     = None
  /\ @WebhookHandler.classify_and_format Sample.runtime
       (Sample.with_chat_ids []) (Some (lit "foo"))
       (push_payload Sample.five_commits) = Ok None.
Proof. repeat split; vm_compute; reflexivity. Qed.



(* ================================================================== *)
(** * Properties: command routing                                      *)
(* ================================================================== *)

Section Routing.
Import Config TelegramBot.

Lemma split_ws_aux_head (s cur : str) :
  cur <> [] \/ (s <> [] /\ leading_space s = false) ->
  exists rest, split_ws_aux s cur = (rev cur ++ take_word s) :: rest.
Proof.
  revert cur. induction s as [|x s IH]; intros cur Hc.
  - destruct Hc as [Hc|[Hc _]]; [|congruence].
    destruct cur as [|c cur]; [congruence|].
    exists []. cbn [split_ws_aux take_word]. now rewrite app_nil_r.
  - cbn [split_ws_aux take_word]. destruct (isspace x) eqn:Ex.
    + destruct Hc as [Hc|[_ Hc]]; [|cbn in Hc; congruence].
      destruct cur as [|c cur]; [congruence|].
      eexists. now rewrite app_nil_r.
    + destruct (IH (x :: cur)) as [rest Hrest]; [left; discriminate|].
      exists rest. rewrite Hrest. cbn [rev]. now rewrite <- app_assoc.
Qed.

Lemma first_token_take_word (text : str) :
  text <> [] -> leading_space text = false ->
  first_token text = Some (take_word text).
Proof.
  intros Hne Hl. unfold first_token, split_ws.
  destruct (split_ws_aux_head text []) as [rest ->]; [right; now split|].
  reflexivity.
Qed.

Lemma startswith_take_word (p s : str) :
  no_space p = true -> startswith (take_word s) p = startswith s p.
Proof.
  revert s. induction p as [|c p IH]; intros s Hp; [reflexivity|].
  cbn [no_space forallb] in Hp. apply andb_prop in Hp as [Hc Hp].
  apply negb_true_iff in Hc.
  destruct s as [|x s]; [reflexivity|]. cbn [take_word].
  destruct (isspace x) eqn:Ex; cbn [startswith].
  - destruct (N.eqb_spec x c) as [->|_]; [congruence|reflexivity].
  - now rewrite (IH s Hp).
Qed.

Lemma find_ext_Forall {A} (f g : A -> bool) (l : list A) :
  Forall (fun x => f x = g x) l -> List.find f l = List.find g l.
Proof.
  induction 1 as [|x l Hx _ IH]; [reflexivity|].
  cbn [List.find]. now rewrite Hx, IH.
Qed.

Lemma match_prefix_take_word (text : str) :
  match_prefix (take_word text) = match_prefix text.
Proof.
  unfold match_prefix. f_equal. apply find_ext_Forall.
  unfold command_prefixes.
  repeat constructor; cbn [fst]; now apply startswith_take_word.
Qed.

(** On a message that does not open with white space, matching the text
    and matching its first token agree. *)
Lemma route_by_first_token_agrees (text : str) :
  text <> [] -> leading_space text = false ->
  route_by_first_token text = match_prefix text.
Proof.
  intros Hne Hl. unfold route_by_first_token.
  rewrite first_token_take_word by assumption.
  apply match_prefix_take_word.
Qed.

(** [handle_message] routes by the prefix of the text, behind the
    permission check. *)
Lemma handle_message_routes (config : Config.t) (now : Q) (u : Update)
    (limits : rate_limits) (m : Message) (message_text : str) :
  message u = Some m ->
  text m = Some message_text ->
  message_text <> [] ->
  handle_message config now u limits
  = gated (routed message_text) config now u limits.
Proof.
  intros Hm Ht Hne. unfold handle_message. rewrite Hm, Ht.
  destruct message_text as [|x s] eqn:E; [congruence|]. rewrite <- E.
  replace (truthy (VStr message_text)) with true by (now rewrite E).
  cbn [negb]. unfold routed, match_prefix, command_prefixes.
  cbn [List.find fst snd].
  repeat (destruct (startswith message_text _);
          [cbn [option_map snd]; unfold command_handler, gated;
           destruct (check_permissions config now u limits) as [[[|] out] l];
           reflexivity|]).
  cbn [option_map]. unfold gated.
  destruct (check_permissions config now u limits) as [[[|] out] l];
    reflexivity.
Qed.

(** A message that opens with white space matches no prefix. *)
Lemma match_prefix_leading_space (text : str) :
  leading_space text = true -> match_prefix text = None.
Proof.
  intros Hl. destruct text as [|c text]; [discriminate|].
  cbn [leading_space] in Hl.
  unfold match_prefix, command_prefixes. cbn [List.find fst startswith lit
    List.map list_ascii_of_string].
  destruct (N.eqb_spec c (N_of_ascii "/")) as [->|_]; [discriminate|].
  reflexivity.
Qed.

(** C6 (as the code has it). A text message is routed by prefix match on
    its text, behind the permission check: the first command whose prefix
    starts the text is run, and when no prefix does, the reply is the
    unknown-command one, sent only if the same check (allow-list, then
    rate limit) passes. When the text does not open with white space this
    is the prefix match on its first white-space-delimited token; when it
    does, no prefix matches, whatever the first token is. *)
Theorem handle_message_routing (config : Config.t) (now : Q) (u : Update)
    (limits : rate_limits) (m : Message) (message_text : str) :
  message u = Some m ->
  text m = Some message_text ->
  message_text <> [] ->
  handle_message config now u limits
  = gated (routed message_text) config now u limits
  /\ (leading_space message_text = false ->
      match_prefix message_text = route_by_first_token message_text)
  /\ (leading_space message_text = true -> match_prefix message_text = None).
Proof.
  intros Hm Ht Hne. split; [|split].
  - now apply (handle_message_routes config now u limits m).
  - intros Hl. symmetry. now apply route_by_first_token_agrees.
  - apply match_prefix_leading_space.
Qed.

End Routing.

Lemma handle_message_routing_witness :
  TelegramBot.handle_message Sample.default_config 0
    (Sample.text_update 5 (lit "/repos octo")) ∅
  = gated (TelegramBot.Run TelegramBot.Repos) Sample.default_config 0
      (Sample.text_update 5 (lit "/repos octo")) ∅
  /\ match_prefix (lit "/repos octo") = route_by_first_token (lit "/repos octo").
Proof.
  destruct (handle_message_routing Sample.default_config 0%Q
              (Sample.text_update 5 (lit "/repos octo")) ∅
              {| TelegramBot.text := Some (lit "/repos octo") |}
              (lit "/repos octo") eq_refl eq_refl)
    as (Hroute & Htoken & _).
  - discriminate.
  - split; [exact Hroute|]. apply Htoken. reflexivity.
Defined.

(** C6 (counterexample). The message [ /help], with a leading space, has
    [/help] as its first white-space-delimited token, which matches the
    prefix of the help command; an authorised chat nevertheless gets the
    unknown-command reply, and the help handler is not run. *)
Lemma routing_ignores_first_token :
  first_token (lit " /help") = Some (lit "/help")
  /\ route_by_first_token (lit " /help") = Some TelegramBot.Help
  /\ fst (TelegramBot.handle_message Sample.default_config 0
            (Sample.text_update 5 (lit " /help")) ∅)
     = [TelegramBot.Reply TelegramBot.unknown_command]
  /\ fst (TelegramBot.handle_message Sample.default_config 0
            (Sample.text_update 5 (lit " /help")) ∅)
     <> fst (gated (match route_by_first_token (lit " /help") with
                   | Some c => TelegramBot.Run c
                   | None => TelegramBot.Reply TelegramBot.unknown_command
                   end)
              Sample.default_config 0 (Sample.text_update 5 (lit " /help")) ∅).
Proof. repeat split; vm_compute; congruence. Qed.

(** Routing on sample messages: prefixes are tried in order, so [/repos]
    wins over [/repo]; a longer word with a known prefix is routed to that
    command; other text gets the unknown-command reply; a chat that is not
    on the allow-list gets the refusal in both cases. *)
Example handle_message_samples :
  fst (TelegramBot.handle_message Sample.default_config 0
         (Sample.text_update 5 (lit "/repos octo")) ∅)
  = [TelegramBot.Run TelegramBot.Repos]
  /\ fst (TelegramBot.handle_message Sample.default_config 0
            (Sample.text_update 5 (lit "/repo octo/hello")) ∅)
     = [TelegramBot.Run TelegramBot.Repo]
  /\ fst (TelegramBot.handle_message Sample.default_config 0
            (Sample.text_update 5 (lit "/starting")) ∅)
     = [TelegramBot.Run TelegramBot.Start]
  /\ fst (TelegramBot.handle_message Sample.default_config 0
            (Sample.text_update 5 (lit "hello")) ∅)
     = [TelegramBot.Reply TelegramBot.unknown_command]
  /\ fst (TelegramBot.handle_message (Sample.with_chat_ids [7%Z]) 0
            (Sample.text_update 5 (lit "hello")) ∅)
     = [TelegramBot.Reply TelegramBot.not_authorized]
  /\ fst (TelegramBot.handle_message (Sample.with_chat_ids [7%Z]) 0
            (Sample.text_update 5 (lit "/help")) ∅)
     = [TelegramBot.Reply TelegramBot.not_authorized].
Proof. repeat split; vm_compute; reflexivity. Qed.


(* ================================================================== *)
(** * Further properties: Markdown escaping                            *)
(* ================================================================== *)

Section EscapeMore.
Import Utils.

Lemma backslash_not_special : is_special backslash = false.
Proof. reflexivity. Qed.

Lemma escaped_cons (x : N) (s : str) :
  escaped (x :: s) = escape_char x ++ escaped s.
Proof. reflexivity. Qed.

Lemma count_special_cons (x : N) (s : str) :
  count_special (x :: s)
  = ((if is_special x then 1 else 0) + count_special s)%nat.
Proof.
  unfold count_special. cbn [List.filter]. now destruct (is_special x).
Qed.

Lemma count_special_app (s t : str) :
  count_special (s ++ t) = (count_special s + count_special t)%nat.
Proof.
  unfold count_special. now rewrite List.filter_app, length_app.
Qed.

Lemma length_escaped (s : str) :
  length (escaped s) = (length s + count_special s)%nat.
Proof.
  induction s as [|x s IH]; [reflexivity|].
  rewrite escaped_cons, count_special_cons, length_app, IH.
  unfold escape_char. destruct (is_special x); cbn [length]; lia.
Qed.

Lemma count_special_escaped (s : str) :
  count_special (escaped s) = count_special s.
Proof.
  induction s as [|x s IH]; [reflexivity|].
  rewrite escaped_cons, count_special_app, count_special_cons, IH.
  f_equal. unfold escape_char. destruct (is_special x) eqn:E.
  - rewrite !count_special_cons, backslash_not_special, E. reflexivity.
  - rewrite count_special_cons, E. reflexivity.
Qed.

Lemma escaped_without_specials (s : str) :
  count_special s = 0%nat -> escaped s = s.
Proof.
  induction s as [|x s IH]; [reflexivity|].
  rewrite escaped_cons, count_special_cons. unfold escape_char.
  destruct (is_special x); [discriminate|].
  intros E. cbn [app]. now rewrite IH.
Qed.

Lemma escaped_head (s : str) (y : N) (r : str) :
  escaped s = y :: r -> is_special y = false.
Proof.
  destruct s as [|x s]; [discriminate|].
  rewrite escaped_cons. unfold escape_char.
  destruct (is_special x) eqn:E; cbn [app]; intros H; inversion H; subst.
  - apply backslash_not_special.
  - exact E.
Qed.

Lemma unescape_cons (x y : N) (r : str) :
  unescape (x :: y :: r)
  = if N.eqb x backslash && is_special y then y :: unescape r
    else x :: unescape (y :: r).
Proof. reflexivity. Qed.

Lemma unescape_escaped (s : str) : unescape (escaped s) = s.
Proof.
  induction s as [|x s IH]; [reflexivity|].
  rewrite escaped_cons.
  unfold escape_char. destruct (is_special x) eqn:E; cbn [app].
  - rewrite unescape_cons, N.eqb_refl, E. cbn [andb]. now rewrite IH.
  - destruct (escaped s) as [|y r] eqn:Es.
    + cbn [unescape] in *. now rewrite <- IH.
    + rewrite unescape_cons, (escaped_head s y r Es), andb_false_r.
      now rewrite IH.
Qed.

(** X1. Escaping loses nothing: dropping the backslashes that stand before
    special characters gives the input back, so two different texts are
    never escaped to the same text. *)
Theorem escape_markdown_round_trip :
  (forall s, exists out,
      escape_markdown (VStr s) = Ok out /\ unescape out = s)
  /\ (forall s t,
         escape_markdown (VStr s) = escape_markdown (VStr t) -> s = t).
Proof.
  split.
  - intros s. exists (escaped s). split;
      [apply escape_markdown_str|apply unescape_escaped].
  - intros s t. rewrite !escape_markdown_str. intros E.
    inversion E as [E']. rewrite <- (unescape_escaped s), E'.
    apply unescape_escaped.
Qed.

Lemma escape_markdown_round_trip_witness :
  (exists out, escape_markdown (VStr (lit "a_b\c")) = Ok out
               /\ unescape out = lit "a_b\c")
  /\ lit "v1.0" = lit "v1.0".
Proof.
  split.
  - apply (proj1 escape_markdown_round_trip).
  - apply (proj2 escape_markdown_round_trip). reflexivity.
Defined.

(** X2. Escaping adds one character per special character and keeps the
    special characters, so escaping an escaped text adds as many again:
    [escape_markdown] is idempotent on texts without special characters
    only. *)
Theorem escape_markdown_twice (s : str) :
  exists once twice,
    escape_markdown (VStr s) = Ok once
    /\ escape_markdown (VStr once) = Ok twice
    /\ length once = (length s + count_special s)%nat
    /\ length twice = (length s + 2 * count_special s)%nat
    /\ (twice = once <-> count_special s = 0%nat).
Proof.
  exists (escaped s), (escaped (escaped s)).
  rewrite !escape_markdown_str.
  pose proof (length_escaped s) as L1.
  pose proof (length_escaped (escaped s)) as L2.
  rewrite count_special_escaped in L2.
  repeat split; try assumption; try lia.
  - intros E. rewrite E in L2. lia.
  - intros E. now rewrite !(escaped_without_specials s E).
Qed.

End EscapeMore.

(* ================================================================== *)
(** * Further properties: signatures and responses                     *)
(* ================================================================== *)

Section SignatureMore.
Import Config WebhookHandler.

Lemma startswith_split (p h : str) :
  startswith h p = true -> h = p ++ skipn (length p) h.
Proof.
  revert h. induction p as [|c p IH]; intros h; [reflexivity|].
  destruct h as [|d h]; [discriminate|]. cbn [startswith length skipn app].
  intros E. apply andb_prop in E as [E1 E2]. apply N.eqb_eq in E1. subst d.
  f_equal. now apply IH.
Qed.

Lemma round_length (st : list N) (kw : N * N) :
  length st = 8%nat -> length (Hashlib.round st kw) = 8%nat.
Proof.
  intros L. do 9 (destruct st as [|? st]; try discriminate). reflexivity.
Qed.

Lemma compress_length (h : list N) (block : bytes) :
  length h = 8%nat -> length (Hashlib.compress h block) = 8%nat.
Proof.
  intros L. unfold Hashlib.compress.
  rewrite length_map, length_combine.
  assert (Hst : forall kws st, length st = 8%nat ->
            length (fold_left Hashlib.round kws st) = 8%nat).
  { induction kws as [|kw kws IH]; intros st Lst; [assumption|].
    cbn [fold_left]. apply IH. now apply round_length. }
  rewrite (Hst _ h L), L. reflexivity.
Qed.

Lemma sha256_length (msg : bytes) : length (Hashlib.sha256 msg) = 32%nat.
Proof.
  unfold Hashlib.sha256.
  assert (Hfold : forall bs h, length h = 8%nat ->
            length (fold_left Hashlib.compress bs h) = 8%nat).
  { induction bs as [|b bs IH]; intros h L; [assumption|].
    cbn [fold_left]. apply IH. now apply compress_length. }
  specialize (Hfold (Hashlib.blocks (length (Hashlib.pad msg) / 64)
                       (Hashlib.pad msg)) Hashlib.IV256 eq_refl).
  destruct (fold_left Hashlib.compress _ Hashlib.IV256) as [|? l];
    [discriminate|].
  do 8 (destruct l as [|? l]; try discriminate). reflexivity.
Qed.

Lemma hex_digit_lower (n : N) :
  (n < 16)%N -> lower_hex (Hashlib.hex_digit n) = true.
Proof.
  intros Hn. unfold Hashlib.hex_digit, lower_hex.
  destruct (N.ltb_spec n 10).
  - replace ((48 <=? 48 + n)%N) with true by (symmetry; apply N.leb_le; lia).
    replace ((48 + n <=? 57)%N) with true by (symmetry; apply N.leb_le; lia).
    reflexivity.
  - replace ((97 <=? 87 + n)%N) with true by (symmetry; apply N.leb_le; lia).
    replace ((87 + n <=? 102)%N) with true by (symmetry; apply N.leb_le; lia).
    now rewrite orb_true_r.
Qed.

Lemma hex_shape (b : bytes) :
  Forall (fun x => (x < 256)%N) b ->
  length (Hashlib.hex b) = (2 * length b)%nat
  /\ forallb lower_hex (Hashlib.hex b) = true.
Proof.
  induction 1 as [|x b Hx Hb [IHl IHf]]; [split; reflexivity|].
  unfold Hashlib.hex in *. cbn [flat_map app length forallb].
  rewrite IHl, IHf. split; [lia|].
  rewrite !hex_digit_lower; [reflexivity| |].
  - change 15%N with (N.ones 4). rewrite N.land_ones.
    apply N.mod_lt. discriminate.
  - rewrite N.shiftr_div_pow2. apply N.Div0.div_lt_upper_bound. exact Hx.
Qed.

Lemma hexdigest_shape (key msg : bytes) :
  length (Hmac.hexdigest key msg) = 64%nat
  /\ forallb lower_hex (Hmac.hexdigest key msg) = true.
Proof.
  unfold Hmac.hexdigest, Hmac.hmac_sha256.
  destruct (hex_shape _ (sha256_small
    (List.map (N.lxor 92) (Hmac.prepare_key key)
     ++ Hashlib.sha256 (List.map (N.lxor 54) (Hmac.prepare_key key) ++ msg))))
    as [Hl Hf].
  rewrite sha256_length in Hl. split; assumption.
Qed.

(** X3. With a secret configured, [verify_signature] returns true for one
    header only: the prefix [sha256=] followed by the 64 lower-case
    hexadecimal digits of the HMAC of the body. A missing header, another
    digest, upper-case digits or extra characters are never accepted. *)
Theorem verify_signature_accepts_one_header (config : Config.t)
    (payload_body key : bytes) (header : option str) :
  github_webhook_secret config <> [] ->
  Codec.utf8_encode (github_webhook_secret config) = Ok key ->
  (verify_signature config payload_body header = Ok true
   <-> header = Some (lit "sha256=" ++ Hmac.hexdigest key payload_body))
  /\ length (Hmac.hexdigest key payload_body) = 64%nat
  /\ forallb lower_hex (Hmac.hexdigest key payload_body) = true.
Proof.
  intros Hs Hk. split; [|apply hexdigest_shape]. split.
  - intros Hv. destruct header as [h|].
    + destruct (startswith h (lit "sha256=")) eqn:Hp.
      * rewrite (verify_signature_compares config payload_body key h Hs Hk Hp)
          in Hv.
        unfold Hmac.compare_digest in Hv.
        destruct (Hmac.is_ascii _ && Hmac.is_ascii _); [|discriminate].
        injection Hv as Heq. apply str_eqb_eq in Heq.
        f_equal. rewrite Heq. exact (startswith_split _ _ Hp).
      * rewrite (verify_signature_no_prefix config payload_body (Some h) Hs Hp)
          in Hv. discriminate.
    + rewrite (verify_signature_no_prefix config payload_body None Hs I) in Hv.
      discriminate.
  - intros ->. now apply verify_signature_correct.
Qed.

End SignatureMore.

Lemma verify_signature_accepts_one_header_witness :
  (WebhookHandler.verify_signature (Sample.with_secret (lit "s")) (lit "{}")
     (Some (lit "sha256=" ++ Hmac.hexdigest [115%N] (lit "{}"))) = Ok true
   <-> Some (lit "sha256=" ++ Hmac.hexdigest [115%N] (lit "{}"))
       = Some (lit "sha256=" ++ Hmac.hexdigest [115%N] (lit "{}")))
  /\ length (Hmac.hexdigest [115%N] (lit "{}")) = 64%nat
  /\ forallb lower_hex (Hmac.hexdigest [115%N] (lit "{}")) = true.
Proof.
  apply (verify_signature_accepts_one_header (Sample.with_secret (lit "s"))
           (lit "{}") [115%N]).
  - discriminate.
  - reflexivity.
Defined.

(* ================================================================== *)
(** * Further properties: events and responses                         *)
(* ================================================================== *)

Section EventsMore.
Import Config Utils WebhookHandler.
Context `{Runtime}.

Lemma is_event_other (e : str) (name : string) :
  e <> lit name -> is_event (Some e) name = false.
Proof.
  intros Hne. cbn [is_event]. apply not_true_iff_false.
  rewrite str_eqb_eq. exact Hne.
Qed.

(** X4. A notification is handed to the dispatcher exactly when the event
    is classified to a non-empty message and the allow-list is not empty:
    with an empty allow-list (the mode in which every chat may use the
    commands) no event is ever relayed. *)
Theorem handle_github_event_sends_iff (config : Config.t)
    (event_type : option str) (payload : value) (m : str) :
  handle_github_event config event_type payload = Some m
  <-> classify_and_format config event_type payload = Ok (Some m)
      /\ m <> [] /\ allowed_chat_ids config <> [].
Proof.
  unfold handle_github_event.
  destruct (classify_and_format config event_type payload) as [[m'|]|e].
  - destruct m' as [|c m']; cbn [truthy andb].
    + split; [discriminate|]. intros (E & Hm & _). congruence.
    + destruct (allowed_chat_ids config) as [|a l].
      * split; [discriminate|]. intros (_ & _ & Ha). congruence.
      * split.
        -- intros E. injection E as <-. repeat split; discriminate.
        -- intros (E & _ & _). congruence.
  - split; [discriminate|]. intros (E & _). discriminate.
  - split; [discriminate|]. intros (E & _). discriminate.
Qed.

(** X5. The answer of [process_webhook] is always one of 200, 400, 403
    and 500, and a notification is dispatched only by a request that is
    answered with 200: never by one whose signature was refused or whose
    body could not be read. *)
Theorem process_webhook_outcomes (config : Config.t) (req : request) :
  In (status (fst (process_webhook config req))) [200; 400; 403; 500]%N
  /\ (forall m,
         snd (process_webhook config req) = Some m ->
         fst (process_webhook config req) = respond "status" "success" 200
         /\ verify_signature config (get_data req) (x_hub_signature_256 req)
            = Ok true
         /\ allowed_chat_ids config <> []).
Proof.
  unfold process_webhook.
  destruct (verify_signature _ _ _) as [[|]|e]; cbn [bind negb].
  - destruct (Codec.utf8_decode (get_data req)) as [text|e]; cbn [bind].
    + destruct (json_loads text) as [payload|e].
      * cbn [fst snd status respond]. split; [now left|].
        intros m Hm. apply handle_github_event_sends_iff in Hm.
        destruct Hm as (_ & _ & Ha).
        split; [reflexivity|]. split; [reflexivity|exact Ha].
      * destruct e; cbn [fst snd status respond In];
          (split; [auto 10|intros m Hm; discriminate Hm]).
    + destruct e; cbn [fst snd status respond In];
        (split; [auto 10|intros m Hm; discriminate Hm]).
  - cbn [fst snd status respond In].
    split; [auto 10|intros m Hm; discriminate Hm].
  - cbn [fst snd status respond In].
    split; [auto 10|intros m Hm; discriminate Hm].
Qed.

(** X6. An event type whose notify flag is off is classified to no
    message, and so is every event type other than [push], [issues],
    [pull_request], [release] and [ping], and a request without the event
    header. *)
Theorem classify_respects_flags (config : Config.t) (payload : value) :
  (notify_on_push config = false ->
   classify_and_format config (Some (lit "push")) payload = Ok None)
  /\ (notify_on_issues config = false ->
      classify_and_format config (Some (lit "issues")) payload = Ok None)
  /\ (notify_on_pull_requests config = false ->
      classify_and_format config (Some (lit "pull_request")) payload = Ok None)
  /\ (notify_on_releases config = false ->
      classify_and_format config (Some (lit "release")) payload = Ok None)
  /\ (forall e, ~ In e known_events ->
                classify_and_format config (Some e) payload = Ok None)
  /\ classify_and_format config None payload = Ok None.
Proof.
  unfold classify_and_format. repeat split.
  - intros ->. reflexivity.
  - intros ->. destruct (notify_on_push config); reflexivity.
  - intros ->. destruct (notify_on_push config), (notify_on_issues config);
      reflexivity.
  - intros ->.
    destruct (notify_on_push config), (notify_on_issues config),
      (notify_on_pull_requests config); reflexivity.
  - intros e Hn.
    rewrite !is_event_other
      by (intros ->; apply Hn; unfold known_events; cbn [In]; auto 10).
    reflexivity.
Qed.

Lemma classify_ping (config : Config.t) (payload : value) :
  classify_and_format config (Some (lit "ping")) payload
  = let! m := format_ping_event payload in Ok (Some m).
Proof.
  unfold classify_and_format.
  replace (is_event (Some (lit "ping")) "push") with false by reflexivity.
  replace (is_event (Some (lit "ping")) "issues") with false by reflexivity.
  replace (is_event (Some (lit "ping")) "pull_request") with false
    by reflexivity.
  replace (is_event (Some (lit "ping")) "release") with false by reflexivity.
  replace (is_event (Some (lit "ping")) "ping") with true by reflexivity.
  reflexivity.
Qed.

(** X7. A [ping] is classified whatever the notify flags are and whatever
    further keys the payload and its repository hold: the message names
    the escaped [full_name] of the repository, or [Unknown] when the
    payload has no [repository] or the repository no [full_name]. *)
Theorem ping_ignores_flags (config : Config.t) (payload : value) :
  (forall repository repo_name,
      has payload "repository" repository ->
      has repository "full_name" (VStr repo_name) ->
      classify_and_format config (Some (lit "ping")) payload
      = Ok (Some (ping_message repo_name)))
  /\ (lacks payload "repository" ->
      classify_and_format config (Some (lit "ping")) payload
      = Ok (Some (ping_message (lit "Unknown"))))
  /\ (forall repository,
         has payload "repository" repository ->
         lacks repository "full_name" ->
         classify_and_format config (Some (lit "ping")) payload
         = Ok (Some (ping_message (lit "Unknown")))).
Proof.
  rewrite classify_ping. unfold format_ping_event. split; [|split].
  - intros repository repo_name Hrepo Hname.
    rewrite (has_get _ _ _ _ Hrepo). cbn [bind].
    rewrite (has_get _ _ _ _ Hname). cbn [bind].
    rewrite escape_markdown_str. reflexivity.
  - intros Hno. rewrite (lacks_get _ _ _ Hno). cbn [bind].
    change (get (VDict []) (lit "full_name") (VStr (lit "Unknown")))
      with (@Ok value (VStr (lit "Unknown"))).
    cbn [bind]. rewrite escape_markdown_str. reflexivity.
  - intros repository Hrepo Hno.
    rewrite (has_get _ _ _ _ Hrepo). cbn [bind].
    rewrite (lacks_get _ _ _ Hno). cbn [bind].
    rewrite escape_markdown_str. reflexivity.
Qed.

End EventsMore.

Lemma process_webhook_outcomes_witness :
  In (WebhookHandler.status
        (fst (@WebhookHandler.process_webhook Sample.runtime
                (Sample.with_chat_ids [7%Z])
                {| WebhookHandler.get_data := lit "{}";
                   WebhookHandler.x_hub_signature_256 := None;
                   WebhookHandler.x_github_event := Some (lit "ping") |})))
     [200; 400; 403; 500]%N
  /\ fst (@WebhookHandler.process_webhook Sample.runtime
            (Sample.with_chat_ids [7%Z])
            {| WebhookHandler.get_data := lit "{}";
               WebhookHandler.x_hub_signature_256 := None;
               WebhookHandler.x_github_event := Some (lit "ping") |})
     = WebhookHandler.respond "status" "success" 200.
Proof.
  destruct (@process_webhook_outcomes Sample.runtime
              (Sample.with_chat_ids [7%Z])
              {| WebhookHandler.get_data := lit "{}";
                 WebhookHandler.x_hub_signature_256 := None;
                 WebhookHandler.x_github_event := Some (lit "ping") |})
    as [Hin Hsent].
  split; [exact Hin|].
  apply (Hsent (ping_message (lit "Unknown"))). reflexivity.
Defined.

Lemma classify_respects_flags_witness :
  @WebhookHandler.classify_and_format Sample.runtime (Sample2.all_off [7%Z])
    (Some (lit "push")) (push_payload Sample.five_commits) = Ok None
  /\ @WebhookHandler.classify_and_format Sample.runtime Sample.default_config
       (Some (lit "star")) (push_payload Sample.five_commits) = Ok None.
Proof.
  destruct (@classify_respects_flags Sample.runtime (Sample2.all_off [7%Z])
              (push_payload Sample.five_commits)) as (Hpush & _).
  destruct (@classify_respects_flags Sample.runtime Sample.default_config
              (push_payload Sample.five_commits))
    as (_ & _ & _ & _ & Hother & _).
  split.
  - apply Hpush. reflexivity.
  - apply Hother. vm_compute. intuition discriminate.
Defined.

Lemma ping_ignores_flags_witness :
  @WebhookHandler.classify_and_format Sample.runtime (Sample2.all_off [7%Z])
    (Some (lit "ping")) Sample2.ping_delivery
  = Ok (Some (Sample2.ping_text "octo/hello\-world"))
  /\ @WebhookHandler.classify_and_format Sample.runtime (Sample2.all_off [7%Z])
       (Some (lit "ping")) Sample2.organization_ping_delivery
     = Ok (Some (Sample2.ping_text "Unknown"))
  /\ @WebhookHandler.classify_and_format Sample.runtime (Sample2.all_off [7%Z])
       (Some (lit "ping")) Sample2.nameless_ping_delivery
     = Ok (Some (Sample2.ping_text "Unknown")).
Proof.
  split; [|split].
  - transitivity
      (@Ok (option str) (Some (ping_message (lit "octo/hello-world"))));
      [|vm_compute; reflexivity].
    eapply (proj1 (@ping_ignores_flags Sample.runtime (Sample2.all_off [7%Z])
                     Sample2.ping_delivery)); [has_field|].
    has_field.
  - apply (proj1 (proj2 (@ping_ignores_flags Sample.runtime
                           (Sample2.all_off [7%Z])
                           Sample2.organization_ping_delivery))).
    lacks_field.
  - eapply (proj2 (proj2 (@ping_ignores_flags Sample.runtime
                            (Sample2.all_off [7%Z])
                            Sample2.nameless_ping_delivery)));
      [has_field|].
    lacks_field.
Defined.

Section FormattersMore.
Import Config Utils WebhookHandler.
Context `{Runtime}.

Lemma emoji_for_issue (action : str) :
  emoji_for [(lit "opened", new_button); (lit "closed", check_mark);
             (lit "reopened", arrows); (lit "edited", pencil)]
            clipboard (VStr action)
  = Ok (issue_icon action).
Proof.
  unfold emoji_for, issue_icon. cbn [List.find fst snd].
  repeat (destruct (str_eqb _ action); [reflexivity|]). reflexivity.
Qed.

Lemma emoji_for_pull_request (action : str) :
  emoji_for [(lit "opened", new_button); (lit "closed", check_mark);
             (lit "merged", party); (lit "reopened", arrows);
             (lit "edited", pencil)]
            clipboard (VStr action)
  = Ok (pull_request_icon action).
Proof.
  unfold emoji_for, pull_request_icon, issue_icon. cbn [List.find fst snd].
  destruct (str_eqb (lit "opened") action) eqn:E1.
  { apply str_eqb_eq in E1. subst action. reflexivity. }
  destruct (str_eqb (lit "closed") action) eqn:E2.
  { apply str_eqb_eq in E2. subst action. reflexivity. }
  destruct (str_eqb (lit "merged") action); [reflexivity|].
  destruct (str_eqb (lit "reopened") action); [reflexivity|].
  destruct (str_eqb (lit "edited") action); reflexivity.
Qed.

Lemma format_issues_event_carried (payload : value) (e : issue_event) :
  is_issue_event "issue" payload e ->
  format_issues_event payload = Some (issue_message e).
Proof.
  intros (Haction & (issue & Hissue & Htitle & Hnumber & Hurl
                     & (user & Huser & Hlogin))
          & (repository & Hrepo & Hfull)).
  unfold format_issues_event.
  rewrite (has_get _ _ _ _ Haction), (has_get _ _ _ _ Hissue),
    (has_get _ _ _ _ Hrepo).
  cbn [bind].
  rewrite (has_get _ _ _ _ Hfull), (has_get _ _ _ _ Htitle),
    (has_get _ _ _ _ Hnumber), (has_get _ _ _ _ Hurl),
    (has_get _ _ _ _ Huser).
  cbn [bind]. rewrite (has_get _ _ _ _ Hlogin).
  cbn [bind]. rewrite emoji_for_issue, !escape_markdown_str.
  cbn [bind catch_all]. f_equal. unfold issue_message, py_str, view_link.
  cbn [str_of_scalar truthy].
  destruct (issue_url e); rewrite <- ?app_assoc, ?app_nil_r; reflexivity.
Qed.

Lemma format_pull_request_event_carried (payload : value) (e : issue_event) :
  is_issue_event "pull_request" payload e ->
  format_pull_request_event payload = Some (pull_request_message e).
Proof.
  intros (Haction & (pull_request & Hpull & Htitle & Hnumber & Hurl
                     & (user & Huser & Hlogin))
          & (repository & Hrepo & Hfull)).
  unfold format_pull_request_event.
  rewrite (has_get _ _ _ _ Haction), (has_get _ _ _ _ Hpull),
    (has_get _ _ _ _ Hrepo).
  cbn [bind].
  rewrite (has_get _ _ _ _ Hfull), (has_get _ _ _ _ Htitle),
    (has_get _ _ _ _ Hnumber), (has_get _ _ _ _ Hurl),
    (has_get _ _ _ _ Huser).
  cbn [bind]. rewrite (has_get _ _ _ _ Hlogin).
  cbn [bind]. rewrite emoji_for_pull_request, !escape_markdown_str.
  cbn [bind catch_all]. f_equal.
  unfold pull_request_message, py_str, view_link.
  cbn [str_of_scalar truthy].
  destruct (issue_url e); rewrite <- ?app_assoc, ?app_nil_r; reflexivity.
Qed.

(** X8. An issues event that carries an action, an issue with title,
    number, URL and the login of its user, and a repository with its full
    name is never suppressed, whatever further keys these objects hold: the
    message has the icon of the action, the action itself as sent, the
    escaped repository name, the issue number in decimal, the escaped
    title and login, and a link when the URL is not empty. *)
Theorem format_issues_event_typed (payload : value) (e : issue_event) :
  is_issue_event "issue" payload e ->
  format_issues_event payload = Some (issue_message e)
  /\ integer_value (str_of_Z (issue_number e)) = Some (issue_number e).
Proof.
  intros He. split.
  - now apply format_issues_event_carried.
  - apply str_of_Z_reads.
Qed.

(** X9. A pull request event that carries the same fields under
    [pull_request] is never suppressed either, whatever further keys its
    objects hold; it is rendered like an issue, with its own icon for the
    action [merged] and the number in decimal. *)
Theorem format_pull_request_event_typed (payload : value) (e : issue_event) :
  is_issue_event "pull_request" payload e ->
  format_pull_request_event payload = Some (pull_request_message e)
  /\ integer_value (str_of_Z (issue_number e)) = Some (issue_number e).
Proof.
  intros He. split.
  - now apply format_pull_request_event_carried.
  - apply str_of_Z_reads.
Qed.




End FormattersMore.

(** Deliveries with further fields carry the fields of their records. *)
Lemma deliveries_carry (e : issue_event) (r : release_event) :
  is_issue_event "issue" (Sample2.issue_delivery "issue" e) e
  /\ is_issue_event "pull_request"
       (Sample2.issue_delivery "pull_request" e) e
  /\ is_published_release (Sample2.release_delivery "published" r) r.
Proof.
  split; [|split].
  - split; [has_field|]. split.
    + eexists. split; [has_field|]. split; [has_field|].
      split; [has_field|]. split; [has_field|].
      eexists. split; [has_field|]. has_field.
    + eexists. split; [has_field|]. has_field.
  - split; [has_field|]. split.
    + eexists. split; [has_field|]. split; [has_field|].
      split; [has_field|]. split; [has_field|].
      eexists. split; [has_field|]. has_field.
    + eexists. split; [has_field|]. has_field.
  - split; [has_field|]. split.
    + eexists. split; [has_field|]. split; [has_field|].
      split; [has_field|]. split; [has_field|].
      eexists. split; [has_field|]. has_field.
    + eexists. split; [has_field|]. has_field.
Qed.

Lemma format_issues_event_typed_witness :
  @WebhookHandler.format_issues_event Sample.runtime
    (Sample2.issue_delivery "issue" Sample2.issue_42)
  = Some Sample2.issue_42_text
  /\ integer_value (lit "42") = Some 42%Z.
Proof.
  destruct (@format_issues_event_typed Sample.runtime
              (Sample2.issue_delivery "issue" Sample2.issue_42)
              Sample2.issue_42) as [Hm Hn].
  - apply deliveries_carry. exact Sample2.release_1.
  - split; [|exact Hn].
    transitivity (Some (issue_message Sample2.issue_42));
      [exact Hm|vm_compute; reflexivity].
Defined.

Lemma format_pull_request_event_typed_witness :
  @WebhookHandler.format_pull_request_event Sample.runtime
    (Sample2.issue_delivery "pull_request" Sample2.pull_7)
  = Some Sample2.pull_7_text
  /\ integer_value (lit "7") = Some 7%Z.
Proof.
  destruct (@format_pull_request_event_typed Sample.runtime
              (Sample2.issue_delivery "pull_request" Sample2.pull_7)
              Sample2.pull_7) as [Hm Hn].
  - apply deliveries_carry. exact Sample2.release_1.
  - split; [|exact Hn].
    transitivity (Some (pull_request_message Sample2.pull_7));
      [exact Hm|vm_compute; reflexivity].
Defined.


(** The messages of an opened issue and of a published release, from the
    payloads written from the records. *)
Example formatted_samples :
  @WebhookHandler.format_issues_event Sample.runtime
    (issue_payload "issue" Sample2.issue_42)
  = Some Sample2.issue_42_text
  /\ @WebhookHandler.format_release_event Sample.runtime
       (release_payload (VStr (lit "published")) Sample2.release_1)
     = Some Sample2.release_1_text.
Proof. split; vm_compute; reflexivity. Qed.


(* ================================================================== *)
(** * Further properties: rate limiter and message handling            *)
(* ================================================================== *)

Section LimiterMore.
Import Config TelegramBot.

Variable config : Config.t.

Local Abbreviation window := (inject_Z (rate_limit_window config)).
Local Abbreviation max_requests := (rate_limit_requests config).

(** One check reads and writes the list of its chat only. *)
Lemma is_rate_limited_local (now : Q) (c : Z) (l1 l2 : rate_limits) :
  requests_of l1 c = requests_of l2 c ->
  fst (is_rate_limited config now c l1) = fst (is_rate_limited config now c l2)
  /\ requests_of (snd (is_rate_limited config now c l1)) c
     = requests_of (snd (is_rate_limited config now c l2)) c.
Proof.
  intros E.
  rewrite !is_rate_limited_stored, !is_rate_limited_answer, E. split; reflexivity.
Qed.

Lemma run_checks_local (c : Z) (calls : list (Q * Z)) (l1 l2 : rate_limits) :
  requests_of l1 c = requests_of l2 c ->
  answers_of c calls (fst (run_checks config calls l1))
  = fst (run_checks config (calls_of c calls) l2)
  /\ requests_of (snd (run_checks config calls l1)) c
     = requests_of (snd (run_checks config (calls_of c calls) l2)) c.
Proof.
  revert l1 l2. induction calls as [|[now c'] calls IH]; intros l1 l2 E.
  - split; [reflexivity|exact E].
  - cbn [calls_of List.filter snd]. fold (calls_of c calls).
    destruct (Z.eqb_spec c' c) as [->|Hne].
    + cbn [run_checks].
      destruct (is_rate_limited_local now c l1 l2 E) as [Ea Es].
      destruct (is_rate_limited config now c l1) as [a1 l1'].
      destruct (is_rate_limited config now c l2) as [a2 l2'].
      cbn [fst snd] in Ea, Es. subst a2.
      destruct (IH l1' l2' Es) as [IHa IHs].
      destruct (run_checks config calls l1') as [as1 m1].
      destruct (run_checks config (calls_of c calls) l2') as [as2 m2].
      cbn [fst snd answers_of] in *. rewrite Z.eqb_refl.
      split; [now f_equal|assumption].
    + cbn [run_checks].
      pose proof (is_rate_limited_other config now c' c l1 Hne) as Ho.
      destruct (is_rate_limited config now c' l1) as [a1 l1'].
      cbn [snd] in Ho.
      destruct (IH l1' l2 (eq_trans Ho E)) as [IHa IHs].
      destruct (run_checks config calls l1') as [as1 m1].
      cbn [fst snd answers_of] in *.
      destruct (Z.eqb_spec c' c) as [->|_]; [congruence|].
      split; assumption.
Qed.

(** X11. The limiter treats chats independently: in any run of calls, the
    answers given to one chat and the requests stored for it are those of
    the run restricted to the calls of that chat. *)
Theorem rate_limiter_per_chat (c : Z) (calls : list (Q * Z))
    (limits : rate_limits) :
  answers_of c calls (fst (run_checks config calls limits))
  = fst (run_checks config (calls_of c calls) limits)
  /\ requests_of (snd (run_checks config calls limits)) c
     = requests_of (snd (run_checks config (calls_of c calls) limits)) c.
Proof. now apply run_checks_local. Qed.

(** What a run stores for a chat was stored before or is the time of one
    of its calls. *)
Lemma run_checks_origin (c : Z) (calls : list (Q * Z)) (limits : rate_limits)
    (t : Q) :
  In t (requests_of (snd (run_checks config calls limits)) c) ->
  In t (requests_of limits c) \/ In (t, c) calls.
Proof.
  revert limits. induction calls as [|[now c'] calls IH]; intros limits Ht.
  - now left.
  - cbn [run_checks] in Ht.
    pose proof (is_rate_limited_stored config now c' limits) as Hst.
    pose proof (is_rate_limited_other config now c' c limits) as Hoth.
    destruct (is_rate_limited config now c' limits) as [limited limits1].
    cbn [fst snd] in *.
    specialize (IH limits1).
    destruct (run_checks config calls limits1) as [answers limits2].
    cbn [snd] in *. destruct (IH Ht) as [H1|H1]; [|right; now right].
    destruct (Z.eq_dec c' c) as [->|Hne].
    + rewrite Hst in H1.
      assert (Hrec : forall x, In x (recent config now (requests_of limits c))
                -> In x (requests_of limits c)).
      { intros x Hx. now apply recent_In in Hx. }
      destruct limited; [left; now apply Hrec|].
      apply in_app_or in H1 as [H1|[<-|[]]]; [left; now apply Hrec|].
      right. now left.
    + rewrite Hoth in H1 by assumption. now left.
Qed.

(** X12. With a positive window and a clock that has not gone backwards,
    after a check at [now] every request stored for the checked chat lies
    in the window that ends at [now], and is the time of a call made for
    that chat. *)
Theorem stored_requests_in_window (c : Z) (now : Q) (calls : list (Q * Z)) :
  (0 < rate_limit_window config)%Z ->
  (forall call, In call calls -> (fst call <= now)%Q) ->
  forall t,
    In t (requests_of
            (snd (is_rate_limited config now c
                    (snd (run_checks config calls ∅)))) c) ->
    (now - window < t /\ t <= now)%Q /\ In (t, c) (calls ++ [(now, c)]).
Proof.
  intros Hw Hc t Ht.
  assert (Hwq : (0 < window)%Q).
  { unfold Qlt. cbn [Qnum Qden inject_Z]. lia. }
  assert (Hb : forall x,
             In x (requests_of (snd (run_checks config calls ∅)) c) ->
             (x <= now)%Q /\ In (x, c) calls).
  { intros x Hx. split.
    - apply (run_checks_bounded config now calls ∅) with (c := c);
        [|assumption..].
      intros c' t' Hin. rewrite requests_of_empty in Hin. destruct Hin.
    - destruct (run_checks_origin c calls ∅ x Hx) as [Hin|Hin]; [|assumption].
      rewrite requests_of_empty in Hin. destruct Hin. }
  rewrite is_rate_limited_stored in Ht.
  assert (Hrec : forall x,
             In x (recent config now
                     (requests_of (snd (run_checks config calls ∅)) c)) ->
             (now - window < x /\ x <= now)%Q /\ In (x, c) (calls ++ [(now, c)])).
  { intros x Hx. apply recent_In in Hx as [Hx Hlo].
    destruct (Hb x Hx) as [Hhi Hin]. repeat split; try assumption.
    apply in_or_app. now left. }
  destruct (fst (is_rate_limited config now c _)).
  - now apply Hrec.
  - apply in_app_or in Ht as [Ht|[<-|[]]]; [now apply Hrec|].
    split.
    + split; [|apply Qle_refl].
      lra.
    + apply in_or_app. right. now left.
Qed.

End LimiterMore.

Lemma stored_requests_in_window_witness :
  (30 - inject_Z (Config.rate_limit_window Sample.two_per_minute) < 10
   /\ 10 <= 30)%Q
  /\ In (10%Q, 1%Z) ([(0%Q, 1%Z); (10%Q, 1%Z)] ++ [(30%Q, 1%Z)]).
Proof.
  apply (stored_requests_in_window Sample.two_per_minute 1%Z 30%Q
           [(0%Q, 1%Z); (10%Q, 1%Z)]).
  - reflexivity.
  - intros call [<-|[<-|[]]]; vm_compute; congruence.
  - vm_compute. right. left. reflexivity.
Defined.

Section MessagesMore.
Import Config TelegramBot.

Variable config : Config.t.

Lemma gated_shape (a : action) (now : Q) (u : Update) (limits : rate_limits) :
  let '(out, limits') := gated a config now u limits in
  (length out <= 1)%nat
  /\ (out = [] -> limits' = limits)
  /\ (forall b, In b out ->
        b = Reply not_authorized \/ b = Reply rate_limit_exceeded \/ b = a)
  /\ (In a out ->
      a = Reply not_authorized \/ a = Reply rate_limit_exceeded \/
      exists chat_id,
        effective_chat u = Some chat_id
        /\ is_chat_allowed config chat_id = true
        /\ is_rate_limited config now chat_id limits = (false, limits')).
Proof.
  unfold gated, check_permissions.
  destruct (effective_chat u) as [chat_id|];
    [|cbn; repeat split; (lia || contradiction || auto)].
  destruct (message u) as [m|];
    [|cbn; repeat split; (lia || contradiction || auto)].
  destruct (is_chat_allowed config chat_id) eqn:Ea; cbn [negb].
  - destruct (is_rate_limited config now chat_id limits) as [[|] l'] eqn:El.
    + cbn [length app]. repeat split; try lia; try discriminate.
      * intros b [<-|[]]. auto.
      * intros [<-|[]]. auto.
    + cbn [length app]. repeat split; try lia; try discriminate.
      * intros b [<-|[]]. auto.
      * intros _. right. right. exists chat_id. auto.
  - cbn [length]. repeat split; try lia; try discriminate.
    + intros b [<-|[]]. auto.
    + intros [<-|[]]. auto.
Qed.

Lemma handle_message_cases (now : Q) (u : Update) (limits : rate_limits) :
  handle_message config now u limits = ([], limits)
  \/ exists message_text,
       handle_message config now u limits
       = gated (routed message_text) config now u limits.
Proof.
  destruct (message u) as [m|] eqn:Em.
  - destruct (text m) as [s|] eqn:Et.
    + destruct s as [|x s].
      * left. unfold handle_message. now rewrite Em, Et.
      * right. exists (x :: s).
        apply (handle_message_routes config now u limits m); try assumption.
        discriminate.
    + left. unfold handle_message. now rewrite Em, Et.
  - left. unfold handle_message. now rewrite Em.
Qed.

Lemma handle_message_acts_once_aux (now : Q) (u : Update)
    (limits : rate_limits) :
  (length (fst (handle_message config now u limits)) <= 1)%nat
  /\ (fst (handle_message config now u limits) = [] ->
      snd (handle_message config now u limits) = limits).
Proof.
  destruct (handle_message_cases now u limits) as [->|[s ->]].
  - cbn [fst snd length]. split; [lia|reflexivity].
  - pose proof (gated_shape (routed s) now u limits) as Hg.
    destruct (gated (routed s) config now u limits) as [out limits'].
    cbn [fst snd]. destruct Hg as (Hlen & Hnil & _). now split.
Qed.

(** X13. Handling one update produces at most one output. The body of a
    command handler runs only for a chat on the allow-list that the rate
    limiter has just admitted, and an update that produces no output
    leaves [rate_limits] as it was. *)
Theorem handle_message_acts_once (now : Q) (u : Update) (limits : rate_limits) :
  (length (fst (handle_message config now u limits)) <= 1)%nat
  /\ (fst (handle_message config now u limits) = [] ->
      snd (handle_message config now u limits) = limits)
  /\ (forall c,
         In (Run c) (fst (handle_message config now u limits)) ->
         exists chat_id,
           effective_chat u = Some chat_id
           /\ is_chat_allowed config chat_id = true
           /\ is_rate_limited config now chat_id limits
              = (false, snd (handle_message config now u limits))).
Proof.
  destruct (handle_message_cases now u limits) as [->|[s ->]].
  - cbn [fst snd length]. repeat split; try lia. intros c [].
  - pose proof (gated_shape (routed s) now u limits) as Hg.
    destruct (gated (routed s) config now u limits) as [out limits'].
    cbn [fst snd]. destruct Hg as (Hlen & Hnil & Hall & Hrun).
    repeat split; try assumption.
    intros c Hin. destruct (Hall _ Hin) as [E|[E|E]]; try discriminate.
    rewrite E in Hin. destruct (Hrun Hin) as [E'|[E'|E']];
      [rewrite <- E in E'; discriminate..|exact E'].
Qed.

Lemma last_cons_default {A} (a d : A) (l : list A) :
  List.last (a :: l) d = List.last l a.
Proof.
  revert a d. induction l as [|x l IH]; intros a d; [reflexivity|].
  change (List.last (a :: x :: l) d) with (List.last (x :: l) d).
  now rewrite !IH.
Qed.

(** A handled update leaves [rate_limits] reachable. *)
Lemma handle_message_reachable (now : Q) (u : Update) (limits : rate_limits) :
  reachable config limits ->
  reachable config (snd (handle_message config now u limits)).
Proof.
  intros Hr. destruct (handle_message_cases now u limits) as [->|[s ->]];
    [exact Hr|].
  unfold gated, check_permissions.
  destruct (effective_chat u) as [chat_id|]; [|exact Hr].
  destruct (message u); [|exact Hr].
  destruct (negb (is_chat_allowed config chat_id)); [exact Hr|].
  pose proof (reachable_step config now chat_id limits Hr) as Hs.
  destruct (is_rate_limited config now chat_id limits) as [[|] l'];
    exact Hs.
Qed.

(** X14. Over any batch of updates handled by the polling loop, the bound
    on the stored requests is kept for every chat, there is at most one
    output per update, and [last_update_id] ends as the id of the last
    update of the batch (unchanged for an empty batch). *)
Theorem handle_updates_invariant (updates : list (Z * Q * Update))
    (last_update_id : Z) (limits : rate_limits) :
  (0 <= rate_limit_requests config)%Z ->
  reachable config limits ->
  let '(out, last, limits') :=
    handle_updates config updates last_update_id limits in
  (forall c,
      (Z.of_nat (length (requests_of limits' c))
       <= rate_limit_requests config)%Z)
  /\ reachable config limits'
  /\ (length out <= length updates)%nat
  /\ last = List.last (List.map (fun x => fst (fst x)) updates) last_update_id.
Proof.
  intros Hmax. revert last_update_id limits.
  induction updates as [|[[update_id now] u] updates IH];
    intros last_update_id limits Hr.
  - cbn. repeat split; try lia; try assumption.
    now apply reachable_bounded.
  - cbn [handle_updates].
    assert (Hstep :
      let '(out, l) := match message u with
                       | Some _ => handle_message config now u limits
                       | None => ([], limits)
                       end in
      reachable config l /\ (length out <= 1)%nat).
    { destruct (message u) eqn:Em.
      - pose proof (handle_message_reachable now u limits Hr) as H1.
        pose proof (proj1 (handle_message_acts_once_aux now u limits)) as H2.
        destruct (handle_message config now u limits). now split.
      - split; [assumption|cbn; lia]. }
    destruct (match message u with
              | Some _ => handle_message config now u limits
              | None => ([], limits)
              end) as [out l].
    destruct Hstep as [Hl Hout].
    specialize (IH update_id l Hl).
    destruct (handle_updates config updates update_id l) as [[outs last] l'].
    destruct IH as (Hb & Hr' & Hlen & Hlast).
    repeat split; try assumption.
    + rewrite length_app. cbn [length]. lia.
    + rewrite Hlast. cbn [List.map fst]. symmetry. apply last_cons_default.
Qed.

End MessagesMore.

Lemma handle_message_acts_once_witness :
  exists chat_id,
    TelegramBot.effective_chat (Sample.text_update 5 (lit "/help"))
    = Some chat_id
    /\ Config.is_chat_allowed Sample.default_config chat_id = true
    /\ TelegramBot.is_rate_limited Sample.default_config 0 chat_id ∅
       = (false,
          snd (TelegramBot.handle_message Sample.default_config 0
                 (Sample.text_update 5 (lit "/help")) ∅)).
Proof.
  apply (proj2 (proj2 (handle_message_acts_once Sample.default_config 0%Q
                         (Sample.text_update 5 (lit "/help")) ∅))
           TelegramBot.Help).
  vm_compute. left. reflexivity.
Defined.

Lemma handle_updates_invariant_witness :
  let '(out, last, limits') :=
    TelegramBot.handle_updates Sample.two_per_minute
      [(1%Z, 0%Q, Sample.text_update 5 (lit "/help"));
       (2%Z, 1%Q, Sample.text_update 5 (lit "hello"));
       (3%Z, 2%Q, Sample.text_update 5 (lit "/status"))] 0 ∅ in
  (forall c,
      (Z.of_nat (length (TelegramBot.requests_of limits' c))
       <= Config.rate_limit_requests Sample.two_per_minute)%Z)
  /\ TelegramBot.reachable Sample.two_per_minute limits'
  /\ (length out <= 3)%nat
  /\ last = 3%Z.
Proof.
  apply (handle_updates_invariant Sample.two_per_minute
           [(1%Z, 0%Q, Sample.text_update 5 (lit "/help"));
            (2%Z, 1%Q, Sample.text_update 5 (lit "hello"));
            (3%Z, 2%Q, Sample.text_update 5 (lit "/status"))] 0%Z ∅).
  - vm_compute. congruence.
  - constructor.
Defined.

(** A batch of three messages at two requests per minute: the command is
    run, the unknown text is answered, and the third message is refused by
    the limiter. *)
Example handle_updates_sample :
  fst (fst (TelegramBot.handle_updates Sample.two_per_minute
              [(1%Z, 0%Q, Sample.text_update 5 (lit "/help"));
               (2%Z, 1%Q, Sample.text_update 5 (lit "hello"));
               (3%Z, 2%Q, Sample.text_update 5 (lit "/status"))] 0 ∅))
  = [TelegramBot.Run TelegramBot.Help;
     TelegramBot.Reply TelegramBot.unknown_command;
     TelegramBot.Reply TelegramBot.rate_limit_exceeded].
Proof. vm_compute. reflexivity. Qed.

(* ================================================================== *)
(** * Further properties: text utilities                               *)
(* ================================================================== *)

Section TextUtilities.
Import Utils.

(** X15. [truncate_text] returns a text within [max_length] unchanged.
    A longer text is cut to exactly [max_length] characters, the last of
    which are the suffix, provided the suffix fits in [max_length]; when
    the suffix is longer than [max_length] the result is longer than
    [max_length]. *)
Theorem truncate_text_length (text suffix : str) (max_length : Z) :
  ((Z.of_nat (length text) <= max_length)%Z ->
   truncate_text text max_length suffix = text)
  /\ ((Z.of_nat (length suffix) <= max_length)%Z ->
      (max_length < Z.of_nat (length text))%Z ->
      truncate_text text max_length suffix
      = firstn (Z.to_nat (max_length - Z.of_nat (length suffix))) text ++ suffix
      /\ Z.of_nat (length (truncate_text text max_length suffix)) = max_length)
  /\ ((max_length < Z.of_nat (length suffix))%Z ->
      (max_length < Z.of_nat (length text))%Z ->
      (max_length < Z.of_nat (length (truncate_text text max_length suffix)))%Z).
Proof.
  unfold truncate_text, str_upto. split; [|split].
  - intros Hle. apply Z.leb_le in Hle. rewrite Hle. now rewrite orb_true_r.
  - intros Hs Hlt.
    destruct text as [|x text]; [cbn [length] in Hlt; lia|].
    cbn [truthy negb orb].
    replace (Z.of_nat (length (x :: text)) <=? max_length)%Z with false
      by (symmetry; apply Z.leb_gt; exact Hlt).
    replace (max_length - Z.of_nat (length suffix) <? 0)%Z with false
      by (symmetry; apply Z.ltb_ge; lia).
    split; [reflexivity|].
    rewrite length_app, length_firstn. lia.
  - intros Hs Hlt.
    destruct text as [|x text]; [cbn [length] in Hlt; lia|].
    cbn [truthy negb orb].
    replace (Z.of_nat (length (x :: text)) <=? max_length)%Z with false
      by (symmetry; apply Z.leb_gt; exact Hlt).
    replace (max_length - Z.of_nat (length suffix) <? 0)%Z with true
      by (symmetry; apply Z.ltb_lt; lia).
    rewrite length_app. lia.
Qed.

Lemma truncate_text_length_witness :
  truncate_text (lit "hello") 8 (lit "...") = lit "hello"
  /\ (truncate_text (lit "hello world") 8 (lit "...")
      = firstn (Z.to_nat (8 - Z.of_nat (length (lit "..."))))
          (lit "hello world") ++ lit "..."
      /\ Z.of_nat (length (truncate_text (lit "hello world") 8 (lit "...")))
         = 8%Z)
  /\ (2 < Z.of_nat (length (truncate_text (lit "hello world") 2 (lit "..."))))%Z.
Proof.
  split; [|split].
  - apply (proj1 (truncate_text_length (lit "hello") (lit "...") 8)).
    vm_compute. congruence.
  - apply (proj1 (proj2 (truncate_text_length (lit "hello world")
                           (lit "...") 8))); vm_compute; congruence.
  - apply (proj2 (proj2 (truncate_text_length (lit "hello world")
                           (lit "...") 2))); vm_compute; congruence.
Defined.



Lemma lstrip_length (s : str) : (length (lstrip s) <= length s)%nat.
Proof.
  induction s as [|x s IH]; [reflexivity|]. cbn [lstrip].
  destruct (isspace x); cbn [length]; lia.
Qed.

Lemma strip_length (s : str) : (length (strip s) <= length s)%nat.
Proof.
  unfold strip, rstrip. rewrite length_rev.
  pose proof (lstrip_length (rev (lstrip s))) as H1.
  rewrite length_rev in H1. pose proof (lstrip_length s). lia.
Qed.





End TextUtilities.

(* ================================================================== *)
(** * Further properties: words and arguments                          *)
(* ================================================================== *)

Section Words.
Import Utils TelegramBot.

Lemma lstrip_decompose (s : str) :
  exists ws, s = ws ++ lstrip s /\ all_space ws = true.
Proof.
  induction s as [|x s (ws & E & Hws)]; [now exists []|].
  cbn [lstrip]. destruct (isspace x) eqn:Ex.
  - exists (x :: ws). cbn [app all_space forallb]. rewrite Ex.
    split; [now f_equal|exact Hws].
  - now exists [].
Qed.

Lemma rstrip_decompose (s : str) :
  exists ws, s = rstrip s ++ ws /\ all_space ws = true.
Proof.
  destruct (lstrip_decompose (rev s)) as (ws & E & Hws).
  exists (rev ws). split.
  - unfold rstrip. rewrite <- rev_app_distr, <- E. now rewrite rev_involutive.
  - unfold all_space in *. rewrite forallb_forall in *.
    intros c Hc. apply Hws. now apply in_rev.
Qed.

Lemma split_ws_aux_leading (ws s : str) :
  all_space ws = true -> split_ws_aux (ws ++ s) [] = split_ws_aux s [].
Proof.
  induction ws as [|x ws IH]; [reflexivity|].
  cbn [all_space forallb]. intros Hx. apply andb_prop in Hx as [Hx Hws].
  cbn [app split_ws_aux]. rewrite Hx. now apply IH.
Qed.

Lemma split_ws_aux_spaces (ws cur : str) :
  all_space ws = true -> split_ws_aux ws cur = split_ws_aux [] cur.
Proof.
  revert cur. induction ws as [|x ws IH]; intros cur; [reflexivity|].
  cbn [all_space forallb]. intros Hx. apply andb_prop in Hx as [Hx Hws].
  cbn [split_ws_aux]. rewrite Hx.
  destruct cur as [|c cur]; rewrite (IH [] Hws); reflexivity.
Qed.

Lemma split_ws_aux_trailing (s ws cur : str) :
  all_space ws = true -> split_ws_aux (s ++ ws) cur = split_ws_aux s cur.
Proof.
  intros Hws. revert cur. induction s as [|x s IH]; intros cur.
  - now apply split_ws_aux_spaces.
  - cbn [app split_ws_aux]. destruct (isspace x).
    + destruct cur; now rewrite IH.
    + apply IH.
Qed.

(** Stripping a text does not change its words. *)
Lemma split_ws_strip (s : str) : split_ws (strip s) = split_ws s.
Proof.
  unfold split_ws, strip.
  destruct (lstrip_decompose s) as (ws & E & Hws).
  destruct (rstrip_decompose (lstrip s)) as (ws' & E' & Hws').
  rewrite E at 2. rewrite split_ws_aux_leading by assumption.
  rewrite E' at 2. now rewrite split_ws_aux_trailing.
Qed.

Lemma split_ws_aux_words (s cur : str) :
  no_space cur = true ->
  Forall is_word (split_ws_aux s cur).
Proof.
  revert cur. induction s as [|x s IH]; intros cur Hcur.
  - cbn [split_ws_aux]. destruct cur as [|c cur]; constructor; [|constructor].
    split.
    + intros E. apply (f_equal (@length N)) in E.
      rewrite length_rev in E. discriminate.
    + unfold no_space in *. rewrite forallb_forall in *.
      intros y Hy. apply Hcur. now apply in_rev.
  - cbn [split_ws_aux]. destruct (isspace x) eqn:Ex.
    + destruct cur as [|c cur]; [now apply IH|].
      constructor; [|now apply IH]. split.
      * intros E. apply (f_equal (@length N)) in E.
        rewrite length_rev in E. discriminate.
      * unfold no_space in *. rewrite forallb_forall in *.
        intros y Hy. apply Hcur. now apply in_rev.
    + apply IH. cbn [no_space forallb]. now rewrite Ex.
Qed.

Lemma split_ws_words (s : str) : Forall is_word (split_ws s).
Proof. now apply split_ws_aux_words. Qed.

(** X17. The arguments of a command are the words of the message after
    the first one: each is non-empty and free of white space, and white
    space around the message makes no difference. *)
Theorem extract_command_args_words (message_text : str) :
  extract_command_args message_text = skipn 1 (split_ws message_text)
  /\ Forall is_word (extract_command_args message_text)
  /\ extract_command_args (strip message_text)
     = extract_command_args message_text.
Proof.
  assert (Hargs : forall s,
             extract_command_args s = skipn 1 (split_ws s)).
  { intros s. unfold extract_command_args.
    destruct s as [|x s]; [reflexivity|]. cbn [truthy negb].
    rewrite split_ws_strip.
    destruct (split_ws (x :: s)) as [|w [|w' ws]]; reflexivity. }
  split; [apply Hargs|]. split.
  - rewrite Hargs. pose proof (split_ws_words message_text) as Hw.
    destruct (split_ws message_text) as [|w ws]; [constructor|].
    now inversion Hw.
  - now rewrite !Hargs, split_ws_strip.
Qed.


Lemma split_once_found (s : str) (sep : N) :
  contains_char s sep = true ->
  exists a b,
    split_once s sep = [a; b] /\ s = a ++ sep :: b
    /\ contains_char a sep = false.
Proof.
  induction s as [|x s IH]; [discriminate|].
  cbn [contains_char existsb split_once]. rewrite (N.eqb_sym sep x).
  destruct (N.eqb_spec x sep) as [->|Hne].
  - intros _. now exists [], s.
  - cbn [orb]. intros Hc. destruct (IH Hc) as (a & b & E & Es & Ha).
    exists (x :: a), b. rewrite E. repeat split.
    + cbn [app]. now f_equal.
    + cbn [contains_char existsb]. rewrite (N.eqb_sym sep x).
      destruct (N.eqb_spec x sep); [contradiction|exact Ha].
Qed.

Lemma no_space_app (a b : str) :
  no_space (a ++ b) = no_space a && no_space b.
Proof. unfold no_space. apply forallb_app. Qed.

(** X18. The repository argument of [/repo], [/commits] and [/issues] is
    the second word of the message. Unpacking it never fails: without a
    second word the usage reply is sent, without a slash the format
    reply, and otherwise the owner is the text before the first slash and
    the repository the text after it, both free of white space. Neither
    part is checked any further: either may be empty. *)
Theorem repo_argument_of_second_word (message_text : str) :
  repo_argument_of message_text <> Fault
  /\ (repo_argument_of message_text = Usage
      <-> (length (split_ws message_text) < 2)%nat)
  /\ (forall owner repo,
         repo_argument_of message_text = Target owner repo ->
         nth 1 (split_ws message_text) [] = owner ++ 47%N :: repo
         /\ contains_char owner 47%N = false
         /\ no_space owner = true /\ no_space repo = true).
Proof.
  unfold repo_argument_of.
  destruct (Nat.ltb_spec (length (split_ws message_text)) 2) as [Hlt|Hge].
  - split; [discriminate|]. split; [split; auto|]. discriminate.
  - set (p := nth 1 (split_ws message_text) []).
    assert (Hp : no_space p = true).
    { pose proof (split_ws_words message_text) as Hw.
      rewrite List.Forall_forall in Hw. apply (Hw p). apply nth_In. lia. }
    destruct (contains_char p 47%N) eqn:Ec; cbn [negb].
    + destruct (split_once_found p 47%N Ec) as (a & b & E & Es & Ha).
      rewrite E. split; [discriminate|].
      split; [split; [discriminate|lia]|].
      intros owner repo Ht. injection Ht as <- <-.
      rewrite Es, no_space_app in Hp. apply andb_prop in Hp as [Hpa Hpb].
      cbn [no_space forallb] in Hpb. apply andb_prop in Hpb as [_ Hpb].
      repeat split; assumption.
    + split; [discriminate|].
      split; [split; [discriminate|lia]|]. discriminate.
Qed.

End Words.

Lemma repo_argument_of_second_word_witness :
  nth 1 (split_ws (lit "/repo octo/hello-world now")) []
  = lit "octo" ++ 47%N :: lit "hello-world"
  /\ contains_char (lit "octo") 47%N = false
  /\ no_space (lit "octo") = true /\ no_space (lit "hello-world") = true.
Proof.
  apply (proj2 (proj2 (repo_argument_of_second_word
                         (lit "/repo octo/hello-world now")))).
  reflexivity.
Defined.

(** Words are split off at white space of any length; an argument made
    of a slash alone is taken as an empty owner and an empty
    repository. *)
Example arguments_sample :
  Utils.extract_command_args (lit "  /repo  octo/hello  x ")
  = [lit "octo/hello"; lit "x"]
  /\ Utils.extract_command_args (lit "/repo") = []
  /\ TelegramBot.repo_argument_of (lit "/repo /") = TelegramBot.Target [] []
  /\ TelegramBot.repo_argument_of (lit "/repo octo") = TelegramBot.InvalidFormat.
Proof. repeat split; vm_compute; reflexivity. Qed.

(* ================================================================== *)
(** * Further properties: durations and chat id lists                  *)
(* ================================================================== *)

Section Durations.
Import Utils.

Lemma uint_digits_inj (u v : Decimal.uint) :
  uint_digits u = uint_digits v -> u = v.
Proof.
  revert v. induction u as [|u IH|u IH|u IH|u IH|u IH|u IH|u IH|u IH|u IH|u IH];
    intros v E; destruct v; cbn [uint_digits] in E; try discriminate;
    try reflexivity; injection E as E; f_equal; now apply IH.
Qed.

Lemma uint_digits_nonempty (p : positive) : uint_digits (Pos.to_uint p) <> [].
Proof.
  pose proof (DecimalPos.Unsigned.to_uint_nonnil p) as Hn.
  destruct (Pos.to_uint p); cbn [uint_digits]; congruence.
Qed.

Lemma str_of_Z_inj (a b : Z) : str_of_Z a = str_of_Z b -> a = b.
Proof.
  assert (Hz : forall p, uint_digits (Pos.to_uint p) <> [48%N]).
  { intros p E. apply (DecimalPos.Unsigned.to_uint_nonzero p).
    apply uint_digits_inj. exact E. }
  assert (Hm : forall p l, uint_digits (Pos.to_uint p) <> 45%N :: l).
  { intros p l E. pose proof (uint_digits_digits (Pos.to_uint p)) as Hd.
    rewrite E in Hd. discriminate. }
  destruct a as [|p|p], b as [|q|q]; cbn [str_of_Z]; intros E;
    try reflexivity; try (exfalso; now apply (Hz _ E));
    try (exfalso; symmetry in E; now apply (Hz _ E));
    try (exfalso; now apply (Hm _ _ E));
    try (exfalso; symmetry in E; now apply (Hm _ _ E));
    try discriminate.
  - f_equal. now apply DecimalPos.Unsigned.to_uint_inj, uint_digits_inj.
  - injection E as E. f_equal.
    now apply DecimalPos.Unsigned.to_uint_inj, uint_digits_inj.
Qed.

(** The characters of a number are digits, after a minus sign at most. *)
Lemma str_of_Z_chars (z : Z) (c : N) :
  In c (str_of_Z z) -> c = 45%N \/ is_digit c = true.
Proof.
  assert (Hd : forall u, In c (uint_digits u) -> is_digit c = true).
  { intros u Hin. pose proof (uint_digits_digits u) as H.
    rewrite forallb_forall in H. now apply H. }
  destruct z as [|p|p]; cbn [str_of_Z].
  - intros [<-|[]]. now right.
  - intros Hin. right. now apply (Hd _ Hin).
  - intros [<-|Hin]; [now left|right; now apply (Hd _ Hin)].
Qed.

Lemma str_of_Z_no_letter (z : Z) (l r : str) (c : N) :
  c <> 45%N -> is_digit c = false -> str_of_Z z <> l ++ c :: r.
Proof.
  intros H1 H2 E. destruct (str_of_Z_chars z c) as [H|H].
  - rewrite E. apply in_or_app. right. now left.
  - contradiction.
  - congruence.
Qed.

(** Texts that agree up to a letter which is in neither number. *)
Lemma split_at_letter (a b : Z) (c : N) (r r' : str) :
  c <> 45%N -> is_digit c = false ->
  str_of_Z a ++ c :: r = str_of_Z b ++ c :: r' ->
  a = b /\ r = r'.
Proof.
  intros H1 H2.
  assert (Hgen : forall l l',
            (forall x, In x l -> x <> c) -> (forall x, In x l' -> x <> c) ->
            l ++ c :: r = l' ++ c :: r' -> l = l' /\ r = r').
  { induction l as [|x l IH]; intros [|y l'] Hl Hl' E; cbn [app] in E.
    - injection E as E. now split.
    - injection E as E _. exfalso. apply (Hl' y); [now left|congruence].
    - injection E as E _. exfalso. apply (Hl x); [now left|congruence].
    - injection E as -> E. destruct (IH l') as [-> ->]; auto.
      + intros z Hz. apply Hl. now right.
      + intros z Hz. apply Hl'. now right. }
  assert (Hno : forall z x, In x (str_of_Z z) -> x <> c).
  { intros z x Hin ->. destruct (str_of_Z_chars z c Hin); congruence. }
  intros E. destruct (Hgen _ _ (Hno a) (Hno b) E) as [E1 E2].
  split; [now apply str_of_Z_inj|assumption].
Qed.

(** The three shapes of a duration under an hour. *)
Lemma format_duration_short (s : Z) :
  (s < 3600)%Z ->
  (s < 60 /\ format_duration s = str_of_Z s ++ [115%N])%Z
  \/ (60 <= s /\ s mod 60 = 0
      /\ format_duration s = str_of_Z (s / 60) ++ [109%N])%Z
  \/ (60 <= s /\ 0 < s mod 60
      /\ format_duration s
         = str_of_Z (s / 60) ++ 109%N :: 32%N :: str_of_Z (s mod 60)
           ++ [115%N])%Z.
Proof.
  intros Hs. unfold format_duration.
  destruct (Z.ltb_spec s 60); [left; now split|right].
  destruct (Z.ltb_spec s 3600); [|lia].
  destruct (Z.ltb_spec 0 (s mod 60)).
  - right. split; [assumption|]. split; [assumption|reflexivity].
  - left. split; [assumption|]. split; [|reflexivity].
    pose proof (Z.mod_pos_bound s 60). lia.
Qed.

Lemma long_tail (a b : str) :
  a ++ 109%N :: 32%N :: b ++ [115%N] = (a ++ 109%N :: 32%N :: b) ++ [115%N].
Proof. now rewrite <- app_assoc. Qed.

(** X19. Durations under one hour are all displayed differently, while
    from one hour on the seconds are not displayed: two durations in the
    same minute have the same text. *)
Theorem format_duration_precision (s s' : Z) :
  ((s < 3600)%Z -> (s' < 3600)%Z ->
   format_duration s = format_duration s' -> s = s')
  /\ ((3600 <= s)%Z -> (3600 <= s')%Z -> (s / 60 = s' / 60)%Z ->
      format_duration s = format_duration s').
Proof.
  split.
  - intros Hs Hs' E.
    destruct (format_duration_short s Hs)
      as [[H1 F]|[(H1 & H2 & F)|(H1 & H2 & F)]];
      destruct (format_duration_short s' Hs')
        as [[H1' F']|[(H1' & H2' & F')|(H1' & H2' & F')]];
      rewrite F, F' in E; rewrite ?long_tail in E.
    + apply app_inj_tail in E as [E _]. now apply str_of_Z_inj.
    + apply app_inj_tail in E as [_ E]. discriminate.
    + apply app_inj_tail in E as [E _].
      exfalso. now apply (str_of_Z_no_letter s _ _ 109%N) in E.
    + apply app_inj_tail in E as [_ E]. discriminate.
    + apply app_inj_tail in E as [E _]. apply str_of_Z_inj in E.
      rewrite (Z.div_mod s 60), (Z.div_mod s' 60) by lia. lia.
    + apply app_inj_tail in E as [_ E]. discriminate.
    + apply app_inj_tail in E as [E _]. symmetry in E.
      exfalso. now apply (str_of_Z_no_letter s' _ _ 109%N) in E.
    + apply app_inj_tail in E as [_ E]. discriminate.
    + apply app_inj_tail in E as [E _].
      apply split_at_letter in E as [Em E]; [|discriminate|reflexivity].
      injection E as E. apply str_of_Z_inj in E.
      rewrite (Z.div_mod s 60), (Z.div_mod s' 60) by lia. lia.
  - intros Hs Hs' E. unfold format_duration.
    destruct (Z.ltb_spec s 60); [lia|]. destruct (Z.ltb_spec s' 60); [lia|].
    destruct (Z.ltb_spec s 3600); [lia|].
    destruct (Z.ltb_spec s' 3600); [lia|].
    assert (Hh : forall x, (x / 3600 = x / 60 / 60)%Z).
    { intros x. rewrite Z.div_div by lia. reflexivity. }
    assert (Hm : forall x, (x mod 3600 / 60 = (x / 60) mod 60)%Z).
    { intros x. change 3600%Z with (60 * 60)%Z.
      rewrite Z.rem_mul_r by lia.
      rewrite (Z.mul_comm 60 ((x / 60) mod 60)), Z.div_add by lia.
      rewrite (Z.div_small (x mod 60) 60) by (apply Z.mod_pos_bound; lia).
      reflexivity. }
    now rewrite !Hh, !Hm, E.
Qed.

End Durations.

Lemma format_duration_precision_witness :
  125%Z = 125%Z
  /\ Utils.format_duration 3725 = Utils.format_duration 3779.
Proof.
  split.
  - apply (proj1 (format_duration_precision 125 125));
      [reflexivity|reflexivity|reflexivity].
  - apply (proj2 (format_duration_precision 3725 3779)); vm_compute; congruence.
Defined.

Section ChatIdLists.
Import Config.
Context `{Runtime}.

Lemma chat_ids_of_entries_well_formed (entries : list str) :
  (forall e, In e entries -> strip e <> [] -> int_of_str (strip e) <> None) ->
  chat_ids_of_entries entries = Some (flat_map entry_ids entries).
Proof.
  induction entries as [|e entries IH]; intros Hok; [reflexivity|].
  cbn [chat_ids_of_entries flat_map]. unfold entry_ids at 1.
  rewrite IH by (intros x Hx; apply Hok; now right).
  destruct (strip e) as [|c r] eqn:Es; [reflexivity|].
  cbn [truthy].
  destruct (int_of_str (c :: r)) as [z|] eqn:Ei; [reflexivity|].
  exfalso. apply (Hok e); [now left|rewrite Es; discriminate|].
  now rewrite Es.
Qed.

Lemma entry_ids_blank (entries : list str) :
  (forall e, In e entries -> strip e = []) ->
  flat_map entry_ids entries = [].
Proof.
  induction entries as [|e l IH]; intros Hblank; [reflexivity|].
  cbn [flat_map]. unfold entry_ids at 1. rewrite (Hblank e) by now left.
  apply IH. intros x Hx. apply Hblank. now right.
Qed.

(** X20. When every entry of [ALLOWED_CHAT_IDS] that is not blank is an
    integer for [int], the allow-list holds those integers, one per such
    entry, in the order written and with repetitions kept; blank entries
    contribute nothing, so a text made of commas and white space gives the
    empty list, which admits every chat. *)
Theorem parse_chat_ids_well_formed (chat_ids_str : str) :
  ((forall e, In e (split chat_ids_str 44%N) ->
              strip e <> [] -> int_of_str (strip e) <> None) ->
   _parse_chat_ids chat_ids_str
   = flat_map entry_ids (split chat_ids_str 44%N))
  /\ ((forall e, In e (split chat_ids_str 44%N) -> strip e = []) ->
      _parse_chat_ids chat_ids_str = []).
Proof.
  assert (Hwf : (forall e, In e (split chat_ids_str 44%N) ->
                   strip e <> [] -> int_of_str (strip e) <> None) ->
                _parse_chat_ids chat_ids_str
                = flat_map entry_ids (split chat_ids_str 44%N)).
  { intros Hok. unfold _parse_chat_ids.
    destruct chat_ids_str as [|x s]; [reflexivity|]. cbn [truthy negb].
    now rewrite chat_ids_of_entries_well_formed. }
  split; [exact Hwf|].
  intros Hblank. rewrite Hwf.
  - now apply entry_ids_blank.
  - intros e Hin Hne. exfalso. apply Hne. now apply Hblank.
Qed.

End ChatIdLists.

Lemma parse_chat_ids_well_formed_witness :
  @Config._parse_chat_ids Sample.runtime (lit "12, -34,,12 ,")
  = flat_map (@entry_ids Sample.runtime) (split (lit "12, -34,,12 ,") 44%N)
  /\ @Config._parse_chat_ids Sample.runtime (lit " , ,") = [].
Proof.
  split.
  - apply (proj1 (@parse_chat_ids_well_formed Sample.runtime
                    (lit "12, -34,,12 ,"))).
    intros e Hin. vm_compute in Hin.
    repeat (destruct Hin as [<-|Hin]; [vm_compute; congruence|]).
    destruct Hin.
  - apply (proj2 (@parse_chat_ids_well_formed Sample.runtime (lit " , ,"))).
    intros e Hin. vm_compute in Hin.
    repeat (destruct Hin as [<-|Hin]; [reflexivity|]). destruct Hin.
Defined.

(* ================================================================== *)
(** * Further properties: patterns                                     *)
(* ================================================================== *)

Section Patterns.
Import Re Utils.





















End Patterns.
